(** * Printbufs (include/linux/printbuf.h): a shallow embedding

    [struct printbuf] is a record; the storage [buf] points to is the list of
    the bytes allocated there.  [unsigned] fields are integers with the
    wrap-around of 32-bit arithmetic written out, [u8] fields wrap at 256.
    A store outside the buffer is undefined behaviour in C: here it is a
    fault, [None], and every operation that stores runs in the option monad. *)

From Stdlib Require Import ZArith Lia Bool Ascii String DecimalString.
From stdpp Require Import base option list.

Local Open Scope Z_scope.

(** ** Machine arithmetic *)

Definition wrap32 (z : Z) : Z := z mod 2 ^ 32.
Definition wrap8 (z : Z) : Z := z mod 2 ^ 8.
Definition add32 (a b : Z) : Z := wrap32 (a + b).
Definition sub32 (a b : Z) : Z := wrap32 (a - b).

Definition u32 (z : Z) : bool := (0 <=? z) && (z <? 2 ^ 32).
Definition u8 (z : Z) : bool := (0 <=? z) && (z <? 2 ^ 8).

(** ** The data model *)

Inductive printbuf_si : Set :=
| PRINTBUF_UNITS_2    (* use binary powers of 2^10 *)
| PRINTBUF_UNITS_10.  (* use powers of 10^3 (standard SI) *)

Definition PRINTBUF_INLINE_TABSTOPS : Z := 4.

Record printbuf : Type := mk_printbuf {
  buf : list ascii;
  size : Z;
  pos : Z;
  last_newline : Z;
  last_field : Z;
  indent : Z;
  atomic : Z;
  allocation_failure : bool;
  heap_allocated : bool;
  si_units : printbuf_si;
  human_readable_units : bool;
  has_indent_or_tabstops : bool;
  suppress_indent_tabstop_handling : bool;
  nr_tabstops : Z;
  cur_tabstop : Z;
  _tabstops : list Z
}.

(** Assignments to one field, [out->f = v]. *)

Definition with_buf (out : printbuf) (b : list ascii) : printbuf :=
  mk_printbuf b (size out) (pos out) (last_newline out) (last_field out)
    (indent out) (atomic out) (allocation_failure out) (heap_allocated out)
    (si_units out) (human_readable_units out) (has_indent_or_tabstops out)
    (suppress_indent_tabstop_handling out) (nr_tabstops out) (cur_tabstop out)
    (_tabstops out).

Definition with_size (out : printbuf) (n : Z) : printbuf :=
  mk_printbuf (buf out) n (pos out) (last_newline out) (last_field out)
    (indent out) (atomic out) (allocation_failure out) (heap_allocated out)
    (si_units out) (human_readable_units out) (has_indent_or_tabstops out)
    (suppress_indent_tabstop_handling out) (nr_tabstops out) (cur_tabstop out)
    (_tabstops out).

Definition with_pos (out : printbuf) (p : Z) : printbuf :=
  mk_printbuf (buf out) (size out) p (last_newline out) (last_field out)
    (indent out) (atomic out) (allocation_failure out) (heap_allocated out)
    (si_units out) (human_readable_units out) (has_indent_or_tabstops out)
    (suppress_indent_tabstop_handling out) (nr_tabstops out) (cur_tabstop out)
    (_tabstops out).

Definition with_indent (out : printbuf) (n : Z) : printbuf :=
  mk_printbuf (buf out) (size out) (pos out) (last_newline out) (last_field out)
    n (atomic out) (allocation_failure out) (heap_allocated out)
    (si_units out) (human_readable_units out) (has_indent_or_tabstops out)
    (suppress_indent_tabstop_handling out) (nr_tabstops out) (cur_tabstop out)
    (_tabstops out).

Definition with_atomic (out : printbuf) (n : Z) : printbuf :=
  mk_printbuf (buf out) (size out) (pos out) (last_newline out) (last_field out)
    (indent out) n (allocation_failure out) (heap_allocated out)
    (si_units out) (human_readable_units out) (has_indent_or_tabstops out)
    (suppress_indent_tabstop_handling out) (nr_tabstops out) (cur_tabstop out)
    (_tabstops out).

Definition with_allocation_failure (out : printbuf) (f : bool) : printbuf :=
  mk_printbuf (buf out) (size out) (pos out) (last_newline out) (last_field out)
    (indent out) (atomic out) f (heap_allocated out)
    (si_units out) (human_readable_units out) (has_indent_or_tabstops out)
    (suppress_indent_tabstop_handling out) (nr_tabstops out) (cur_tabstop out)
    (_tabstops out).

Definition with_nr_tabstops (out : printbuf) (n : Z) : printbuf :=
  mk_printbuf (buf out) (size out) (pos out) (last_newline out) (last_field out)
    (indent out) (atomic out) (allocation_failure out) (heap_allocated out)
    (si_units out) (human_readable_units out) (has_indent_or_tabstops out)
    (suppress_indent_tabstop_handling out) n (cur_tabstop out)
    (_tabstops out).

Definition with_cur_tabstop (out : printbuf) (n : Z) : printbuf :=
  mk_printbuf (buf out) (size out) (pos out) (last_newline out) (last_field out)
    (indent out) (atomic out) (allocation_failure out) (heap_allocated out)
    (si_units out) (human_readable_units out) (has_indent_or_tabstops out)
    (suppress_indent_tabstop_handling out) (nr_tabstops out) n
    (_tabstops out).

(** Every integer field holds a value of its C type. *)
Definition fields_ok (out : printbuf) : bool :=
  u32 (size out) && u32 (pos out) && u32 (last_newline out)
  && u32 (last_field out) && u32 (indent out) && u8 (atomic out)
  && u8 (nr_tabstops out) && u8 (cur_tabstop out)
  && forallb u8 (_tabstops out)
  && (Z.of_nat (length (_tabstops out)) =? PRINTBUF_INLINE_TABSTOPS).

(** [buf] points to exactly [size] bytes. *)
Definition storage_ok (out : printbuf) : bool :=
  Z.of_nat (length (buf out)) =? size out.

Definition printbuf_ok (out : printbuf) : bool :=
  fields_ok out && storage_ok out.

(** Initializer for a heap allocated printbuf: every other field is zero. *)
Definition PRINTBUF : printbuf :=
  mk_printbuf [] 0 0 0 0 0 0 false true PRINTBUF_UNITS_2 false false false
    0 0 [0; 0; 0; 0].

(** Initializer a printbuf that points to an external buffer. *)
Definition PRINTBUF_EXTERN (_buf : list ascii) (_size : Z) : printbuf :=
  mk_printbuf _buf _size 0 0 0 0 0 false false PRINTBUF_UNITS_2 false false
    false 0 0 [0; 0; 0; 0].

(** ** Accessors *)

(** Returns size remaining of output buffer. *)
Definition printbuf_remaining_size (out : printbuf) : Z :=
  if pos out <? size out then sub32 (size out) (pos out) else 0.

(** Returns number of characters we can print to the output buffer - i.e.
    excluding the terminating nul. *)
Definition printbuf_remaining (out : printbuf) : Z :=
  if pos out <? size out then sub32 (sub32 (size out) (pos out)) 1 else 0.

Definition printbuf_written (out : printbuf) : Z :=
  if negb (size out =? 0) then Z.min (pos out) (sub32 (size out) 1) else 0.

(** Returns true if output was truncated. *)
Definition printbuf_overflowed (out : printbuf) : bool :=
  pos out >=? size out.

(** printbuf_reset - re-use a printbuf without freeing and re-initializing
    it. *)
Definition printbuf_reset (b : printbuf) : printbuf :=
  let b := with_pos b 0 in
  let b := with_allocation_failure b false in
  let b := with_indent b 0 in
  let b := with_nr_tabstops b 0 in
  with_cur_tabstop b 0.

Definition printbuf_atomic_inc (b : printbuf) : printbuf :=
  with_atomic b (wrap8 (atomic b + 1)).

Definition printbuf_atomic_dec (b : printbuf) : printbuf :=
  with_atomic b (wrap8 (atomic b - 1)).

(** ** Stores and the growth engine *)

(** [out->buf[i] = c]: a fault at an index at or beyond the capacity, and
    outside the bytes [buf] points to. *)
Definition store (out : printbuf) (i : Z) (c : ascii) : option printbuf :=
  if (0 <=? i) && (i <? size out) && (i <? Z.of_nat (length (buf out)))
  then Some (with_buf out (<[Z.to_nat i := c]> (buf out)))
  else None.

(** The memory allocator behind [krealloc], as the growth engine sees it. *)
Record allocator : Type := mk_allocator {
  min_chunk : Z;                  (* the minimum growth chunk *)
  try_alloc : bool -> Z -> bool;  (* non-blocking strategy?, bytes: granted? *)
  junk : ascii                    (* what the new bytes of a grown block hold *)
}.

Fixpoint double_until (fuel : nat) (cap need : Z) : Z :=
  match fuel with
  | O => cap
  | S fuel' => if need <=? cap then cap else double_until fuel' (2 * cap) need
  end.

Definition grown_capacity (A : allocator) (cap need : Z) : Z :=
  double_until 33 (Z.max cap (min_chunk A)) need.

(** Modelled from the spec: [printbuf_make_room] is declared in printbuf.h and
    defined outside the header.  Spec 4.1: in external mode growth is never
    attempted and the call is a no-op; in heap mode, if
    [cursor + n + 1 > capacity], the capacity grows by doubling until
    sufficient, with a minimum growth chunk, through a non-blocking allocation
    whenever the urgency counter [atomic] is nonzero; on allocation failure
    [allocation_failure] is set, the content is preserved and the buffer goes
    on as a fixed-capacity one.  A grown block keeps the old bytes; a capacity
    that does not fit the 32-bit [size] field counts as a failed allocation.
    The callers in the header ignore the returned error code. *)
Definition printbuf_make_room (A : allocator) (out : printbuf) (n : Z)
  : printbuf :=
  if negb (heap_allocated out) || allocation_failure out then out
  else if pos out + n + 1 >? size out then
    let new_size := grown_capacity A (size out) (pos out + n + 1) in
    if (pos out + n + 1 <=? new_size) && u32 new_size
       && try_alloc A (negb (atomic out =? 0)) new_size
    then with_size
           (with_buf out (resize (Z.to_nat new_size) (junk A) (buf out)))
           new_size
    else with_allocation_failure out true
  else out.

(** ** Write primitives *)

Section Primitives.

Variable A : allocator.

Definition printbuf_nul_terminate (out : printbuf) : option printbuf :=
  let out := printbuf_make_room A out 1 in
  if pos out <? size out then store out (pos out) zero
  else if negb (size out =? 0) then store out (sub32 (size out) 1) zero
  else Some out.

(** Doesn't call printbuf_make_room(), doesn't nul terminate. *)
Definition __prt_char_reserved (out : printbuf) (c : ascii)
  : option printbuf :=
  out ← (if negb (printbuf_remaining out =? 0)
         then store out (pos out) c else Some out);
  Some (with_pos out (add32 (pos out) 1)).

(** Doesn't nul terminate. *)
Definition __prt_char (out : printbuf) (c : ascii) : option printbuf :=
  __prt_char_reserved (printbuf_make_room A out 1) c.

Definition prt_char (out : printbuf) (c : ascii) : option printbuf :=
  out ← __prt_char out c;
  printbuf_nul_terminate out.

(** [for (i = 0; i < can_print; i++) out->buf[out->pos++] = c;]
    with [k] iterations left. *)
Fixpoint chars_loop (k : nat) (c : ascii) (out : printbuf)
  : option printbuf :=
  match k with
  | O => Some out
  | S k' =>
      out ← store out (pos out) c;
      chars_loop k' c (with_pos out (add32 (pos out) 1))
  end.

Definition __prt_chars_reserved (out : printbuf) (c : ascii) (n : Z)
  : option printbuf :=
  let can_print := Z.min n (printbuf_remaining out) in
  out ← chars_loop (Z.to_nat can_print) c out;
  Some (with_pos out (add32 (pos out) (sub32 n can_print))).

Definition prt_chars (out : printbuf) (c : ascii) (n : Z) : option printbuf :=
  out ← __prt_chars_reserved (printbuf_make_room A out n) c n;
  printbuf_nul_terminate out.

(** [for (i = 0; i < can_print; i++) out->buf[out->pos++] = b[i];]
    at index [i], with [k] iterations left; reading past the bytes [b] points
    to is a fault. *)
Fixpoint bytes_loop (k : nat) (b : list ascii) (i : Z) (out : printbuf)
  : option printbuf :=
  match k with
  | O => Some out
  | S k' =>
      c ← b !! Z.to_nat i;
      out ← store out (pos out) c;
      bytes_loop k' b (add32 i 1) (with_pos out (add32 (pos out) 1))
  end.

Definition prt_bytes (out : printbuf) (b : list ascii) (n : Z)
  : option printbuf :=
  let out := printbuf_make_room A out n in
  let can_print := Z.min n (printbuf_remaining out) in
  out ← bytes_loop (Z.to_nat can_print) b 0 out;
  let out := with_pos out (add32 (pos out) (sub32 n can_print)) in
  printbuf_nul_terminate out.

(** [strlen]: the bytes before the first nul; a list without one stands for
    a string whose terminator follows its last byte. *)
Fixpoint strlen (str : list ascii) : Z :=
  match str with
  | [] => 0
  | c :: str' => if Ascii.eqb c zero then 0 else 1 + strlen str'
  end.

(** [strlen] returns a [size_t]; the parameter of [prt_bytes] is
    [unsigned]. *)
Definition prt_str (out : printbuf) (str : list ascii) : option printbuf :=
  prt_bytes out str (wrap32 (strlen str)).

(** Modelled from the spec: [hex_asc_hi], [hex_asc_lo] and the upper-case
    pair are macros of linux/kernel.h, which is not part of the sources; the
    spec has them as the two hex digits of a byte in the lower-case and the
    upper-case alphabet. *)
Definition hex_asc : list ascii := list_ascii_of_string "0123456789abcdef".
Definition hex_asc_upper : list ascii :=
  list_ascii_of_string "0123456789ABCDEF".
Definition hex_digit (table : list ascii) (i : Z) : ascii :=
  nth (Z.to_nat i) table zero.
Definition hex_asc_lo (x : Z) : ascii := hex_digit hex_asc (Z.land x 15).
Definition hex_asc_hi (x : Z) : ascii :=
  hex_digit hex_asc (Z.shiftr (Z.land x 240) 4).
Definition hex_asc_upper_lo (x : Z) : ascii :=
  hex_digit hex_asc_upper (Z.land x 15).
Definition hex_asc_upper_hi (x : Z) : ascii :=
  hex_digit hex_asc_upper (Z.shiftr (Z.land x 240) 4).

Definition prt_hex_byte (out : printbuf) (byte : Z) : option printbuf :=
  let out := printbuf_make_room A out 2 in
  out ← __prt_char_reserved out (hex_asc_hi byte);
  out ← __prt_char_reserved out (hex_asc_lo byte);
  printbuf_nul_terminate out.

Definition prt_hex_byte_upper (out : printbuf) (byte : Z) : option printbuf :=
  let out := printbuf_make_room A out 2 in
  out ← __prt_char_reserved out (hex_asc_upper_hi byte);
  out ← __prt_char_reserved out (hex_asc_upper_lo byte);
  printbuf_nul_terminate out.

End Primitives.

(** ** Calls of the header's operations *)

Inductive call : Type :=
| Call__prt_char_reserved (c : ascii)
| Call__prt_char (c : ascii)
| Call_prt_char (c : ascii)
| Call__prt_chars_reserved (c : ascii) (n : Z)
| Call_prt_chars (c : ascii) (n : Z)
| Call_prt_bytes (b : list ascii) (n : Z)
| Call_prt_str (str : list ascii)
| Call_prt_hex_byte (byte : Z)
| Call_prt_hex_byte_upper (byte : Z)
| Call_printbuf_nul_terminate
| Call_printbuf_reset
| Call_printbuf_atomic_inc
| Call_printbuf_atomic_dec.

Definition run (A : allocator) (f : call) (out : printbuf) : option printbuf :=
  match f with
  | Call__prt_char_reserved c => __prt_char_reserved out c
  | Call__prt_char c => __prt_char A out c
  | Call_prt_char c => prt_char A out c
  | Call__prt_chars_reserved c n => __prt_chars_reserved out c n
  | Call_prt_chars c n => prt_chars A out c n
  | Call_prt_bytes b n => prt_bytes A out b n
  | Call_prt_str str => prt_str A out str
  | Call_prt_hex_byte byte => prt_hex_byte A out byte
  | Call_prt_hex_byte_upper byte => prt_hex_byte_upper A out byte
  | Call_printbuf_nul_terminate => printbuf_nul_terminate A out
  | Call_printbuf_reset => Some (printbuf_reset out)
  | Call_printbuf_atomic_inc => Some (printbuf_atomic_inc out)
  | Call_printbuf_atomic_dec => Some (printbuf_atomic_dec out)
  end.

Fixpoint run_all (A : allocator) (fs : list call) (out : printbuf)
  : option printbuf :=
  match fs with
  | [] => Some out
  | f :: fs' => out ← run A f out; run_all A fs' out
  end.

(** The arguments hold values of their C types, and [b] points to at least
    [n] bytes. *)
Definition args_ok (f : call) : bool :=
  match f with
  | Call__prt_chars_reserved _ n | Call_prt_chars _ n => u32 n
  | Call_prt_bytes b n => u32 n && (n <=? Z.of_nat (length b))
  | Call_prt_hex_byte byte | Call_prt_hex_byte_upper byte => u8 byte
  | _ => true
  end.

(** The public write primitives: make room, write, nul terminate. *)
Definition is_public_write (f : call) : bool :=
  match f with
  | Call_prt_char _ | Call_prt_chars _ _ | Call_prt_bytes _ _
  | Call_prt_str _ | Call_prt_hex_byte _ | Call_prt_hex_byte_upper _ => true
  | _ => false
  end.

Definition is_reset (f : call) : bool :=
  match f with
  | Call_printbuf_reset => true
  | _ => false
  end.

(** The bytes a call asks to append, and how many they are. *)
Definition requested (f : call) : list ascii :=
  match f with
  | Call__prt_char_reserved c | Call__prt_char c | Call_prt_char c => [c]
  | Call__prt_chars_reserved c n | Call_prt_chars c n =>
      replicate (Z.to_nat n) c
  | Call_prt_bytes b n => take (Z.to_nat n) b
  | Call_prt_str str => take (Z.to_nat (strlen str)) str
  | Call_prt_hex_byte byte => [hex_asc_hi byte; hex_asc_lo byte]
  | Call_prt_hex_byte_upper byte =>
      [hex_asc_upper_hi byte; hex_asc_upper_lo byte]
  | _ => []
  end.

Definition requested_len (f : call) : Z :=
  match f with
  | Call__prt_char_reserved _ | Call__prt_char _ | Call_prt_char _ => 1
  | Call__prt_chars_reserved _ n | Call_prt_chars _ n => n
  | Call_prt_bytes _ n => n
  | Call_prt_str str => strlen str
  | Call_prt_hex_byte _ | Call_prt_hex_byte_upper _ => 2
  | _ => 0
  end.

Definition requested_all (fs : list call) : list ascii :=
  concat (map requested fs).

Definition requested_len_all (fs : list call) : Z :=
  foldr Z.add 0 (map requested_len fs).

(** The text a reader of the buffer sees: the bytes before the terminator
    slot that were written. *)
Definition printbuf_text (out : printbuf) : list ascii :=
  take (Z.to_nat (printbuf_written out)) (buf out).

(** ** Units formatting *)

Definition with_si_units (out : printbuf) (u : printbuf_si) : printbuf :=
  mk_printbuf (buf out) (size out) (pos out) (last_newline out) (last_field out)
    (indent out) (atomic out) (allocation_failure out) (heap_allocated out)
    u (human_readable_units out) (has_indent_or_tabstops out)
    (suppress_indent_tabstop_handling out) (nr_tabstops out) (cur_tabstop out)
    (_tabstops out).

Definition with_human_readable_units (out : printbuf) (h : bool) : printbuf :=
  mk_printbuf (buf out) (size out) (pos out) (last_newline out) (last_field out)
    (indent out) (atomic out) (allocation_failure out) (heap_allocated out)
    (si_units out) h (has_indent_or_tabstops out)
    (suppress_indent_tabstop_handling out) (nr_tabstops out) (cur_tabstop out)
    (_tabstops out).

Definition bytes_of (s : string) : list ascii := list_ascii_of_string s.

(** A non-negative integer in decimal. *)
Definition decimal_text (v : Z) : list ascii :=
  bytes_of (NilZero.string_of_uint (N.to_uint (Z.to_N v))).

Definition unit_base (u : printbuf_si) : Z :=
  match u with
  | PRINTBUF_UNITS_2 => 1024
  | PRINTBUF_UNITS_10 => 1000
  end.

Definition unit_suffixes : list ascii := bytes_of "KMGTPE".

(** How many times the value reaches the threshold of the next suffix. *)
Fixpoint magnitude_step (fuel : nat) (base v : Z) : nat :=
  match fuel with
  | O => O
  | S fuel' =>
      if v <? base then O else S (magnitude_step fuel' base (v / base))
  end.

(** Modelled from the spec: the text of [prt_human_readable_u64], which is
    declared in printbuf.h and defined outside the header.  Spec 4.5: the
    value is scaled by powers of 1024 (binary mode) or 1000 (decimal mode),
    stepping to the next of the suffixes K, M, G, T, P, E when it reaches the
    base in the current unit; zero and magnitudes below the first threshold
    render as a plain integer with no suffix; otherwise the text is the
    scaled value, one fractional digit and the suffix, the fractional digit
    being the first decimal digit of the remainder after integer division by
    the scale factor of the chosen step, truncated. *)
Definition human_readable_text (u : printbuf_si) (v : Z) : list ascii :=
  let base := unit_base u in
  match magnitude_step (length unit_suffixes) base v with
  | O => decimal_text v
  | S k =>
      let scale := base ^ Z.of_nat (S k) in
      decimal_text (v / scale) ++ bytes_of "."
      ++ decimal_text (v mod scale * 10 / scale)
      ++ [nth k unit_suffixes zero]
  end.

(** Modelled from the spec: [prt_human_readable_u64] is declared in
    printbuf.h and defined outside the header.  Spec 4.5 gives its text, in
    the unit mode [si_units] of the buffer; it reaches the buffer as any
    string does. *)
Definition prt_human_readable_u64 (A : allocator) (out : printbuf) (v : Z)
  : option printbuf :=
  prt_str A out (human_readable_text (si_units out) v).

(** Modelled from the spec: [prt_human_readable_s64] is declared in
    printbuf.h and defined outside the header.  Spec 4.5: the signed variant
    handles the sign separately, then formats the absolute magnitude,
    re-applying the sign as a leading [-]. *)
Definition prt_human_readable_s64 (A : allocator) (out : printbuf) (v : Z)
  : option printbuf :=
  if v <? 0
  then out ← prt_char A out "-"%char; prt_human_readable_u64 A out (- v)
  else prt_human_readable_u64 A out v.

(** Modelled from the spec: [prt_units_u64] is declared in printbuf.h and
    defined outside the header.  Spec 4.5: it dispatches to raw-integer
    formatting or to human-readable formatting on [human_readable_units]. *)
Definition prt_units_u64 (A : allocator) (out : printbuf) (v : Z)
  : option printbuf :=
  if human_readable_units out
  then prt_human_readable_u64 A out v
  else prt_str A out (decimal_text v).

(** Modelled from the spec: [prt_units_s64] is declared in printbuf.h and
    defined outside the header.  Spec 4.5: the same dispatch, with the sign
    handled separately. *)
Definition prt_units_s64 (A : allocator) (out : printbuf) (v : Z)
  : option printbuf :=
  if human_readable_units out
  then prt_human_readable_s64 A out v
  else if v <? 0
       then out ← prt_char A out "-"%char; prt_str A out (decimal_text (- v))
       else prt_str A out (decimal_text v).

(** ** The operations in closed form

    What the write primitives do to a well-formed buffer, without the loops
    and the faults; [run_effect] below relates them to the code. *)

(** Append [l]: the bytes that fit before the terminator slot are stored at
    the cursor, the cursor advances by the whole length. *)
Definition put (out : printbuf) (l : list ascii) : printbuf :=
  with_pos
    (with_buf out
       (list_inserts (Z.to_nat (pos out))
          (take (Z.to_nat (printbuf_remaining out)) l) (buf out)))
    (add32 (pos out) (Z.of_nat (length l))).

(** A nul at the cursor, or in the last byte once the cursor is past it. *)
Definition terminate (out : printbuf) : printbuf :=
  if size out =? 0 then out
  else with_buf out
         (<[Z.to_nat (Z.min (pos out) (size out - 1)) := zero]> (buf out)).

Definition effect (A : allocator) (f : call) (out : printbuf) : printbuf :=
  let room := printbuf_make_room A in
  match f with
  | Call__prt_char_reserved c => put out [c]
  | Call__prt_char c => put (room out 1) [c]
  | Call_prt_char c => terminate (room (put (room out 1) [c]) 1)
  | Call__prt_chars_reserved c n => put out (replicate (Z.to_nat n) c)
  | Call_prt_chars c n =>
      terminate (room (put (room out n) (replicate (Z.to_nat n) c)) 1)
  | Call_prt_bytes b n =>
      terminate (room (put (room out n) (take (Z.to_nat n) b)) 1)
  | Call_prt_str str =>
      let n := wrap32 (strlen str) in
      terminate (room (put (room out n) (take (Z.to_nat n) str)) 1)
  | Call_prt_hex_byte byte =>
      terminate
        (room (put (put (room out 2) [hex_asc_hi byte]) [hex_asc_lo byte]) 1)
  | Call_prt_hex_byte_upper byte =>
      terminate
        (room (put (put (room out 2) [hex_asc_upper_hi byte])
                 [hex_asc_upper_lo byte]) 1)
  | Call_printbuf_nul_terminate => terminate (room out 1)
  | Call_printbuf_reset => printbuf_reset out
  | Call_printbuf_atomic_inc => printbuf_atomic_inc out
  | Call_printbuf_atomic_dec => printbuf_atomic_dec out
  end.

(** [out'] differs from [out] at most in bytes of the storage among the
    [count] ones from the cursor of [out], all of them before the terminator
    slot [size - 1]. *)
Definition stores_within (out out' : printbuf) (count : Z) : Prop :=
  size out' = size out
  /\ length (buf out') = length (buf out)
  /\ forall i : nat,
       buf out' !! i <> buf out !! i ->
       pos out <= Z.of_nat i < pos out + count
       /\ Z.of_nat i < size out - 1.

(** What holds of an external buffer of capacity [cap] once the bytes [log]
    have been requested: the cursor counts them all, and the bytes before
    the terminator slot are the first ones of [log]. *)
Definition extern_inv (cap : Z) (log : list ascii) (out : printbuf) : Prop :=
  printbuf_ok out = true
  /\ heap_allocated out = false
  /\ size out = cap
  /\ pos out = Z.of_nat (length log)
  /\ take (Z.to_nat (Z.min (Z.of_nat (length log)) (cap - 1))) (buf out)
     = take (Z.to_nat (Z.min (Z.of_nat (length log)) (cap - 1))) log.

(** Two buffers that no operation of the header and no accessor tells
    apart: the same storage, capacity, cursor, ownership, failure flag,
    indent and tabstop counters; the urgency counter [atomic] matters to a
    buffer that may grow. *)
Definition same_view (a b : printbuf) : Prop :=
  buf a = buf b
  /\ size a = size b
  /\ pos a = pos b
  /\ heap_allocated a = heap_allocated b
  /\ allocation_failure a = allocation_failure b
  /\ indent a = indent b
  /\ nr_tabstops a = nr_tabstops b
  /\ cur_tabstop a = cur_tabstop b
  /\ (heap_allocated a = true -> atomic a = atomic b).

(** The buffers whose reset is compared with a fresh one: the external
    ones, and the heap ones of capacity zero outside atomic sections. *)
Definition starts_afresh (out : printbuf) : bool :=
  negb (heap_allocated out) || ((size out =? 0) && (atomic out =? 0)).

(** The freshly constructed buffer a reset one is compared with. *)
Definition fresh_like (out : printbuf) : printbuf :=
  if heap_allocated out then PRINTBUF
  else PRINTBUF_EXTERN (buf out) (size out).

(** ** Allocators to run examples with *)

(** Every request is granted. *)
Definition generous : allocator := mk_allocator 8 (fun _ _ => true) zero.

(** Memory pressure: only a request that may block is granted. *)
Definition pressed : allocator :=
  mk_allocator 8 (fun nonblocking _ => negb nonblocking) zero.

(** An external buffer of 16 bytes with human-readable units enabled. *)
Definition units_buf (u : printbuf_si) : printbuf :=
  with_human_readable_units
    (with_si_units (PRINTBUF_EXTERN (replicate 16 zero) 16) u) true.

(** ** Notions for the further properties *)

(** The writes: every call but [printbuf_reset] and the two on the
    [atomic] counter. *)
Definition is_write (f : call) : bool :=
  match f with
  | Call_printbuf_reset | Call_printbuf_atomic_inc
  | Call_printbuf_atomic_dec => false
  | _ => true
  end.

(** [b] goes on from [a]: it is no smaller, its cursor is no further back,
    and the bytes of [a] before its cursor and its terminator slot are
    still there. *)
Definition keeps_text (a b : printbuf) : Prop :=
  size a <= size b
  /\ pos a <= pos b
  /\ forall i : nat,
       Z.of_nat i < Z.min (pos a) (size a - 1) ->
       buf b !! i = buf a !! i.

(** A string without a nul byte. *)
Definition no_nul (str : list ascii) : bool :=
  forallb (fun c => negb (Ascii.eqb c zero)) str.

(** The calls that leave the buffer nul terminated: the public writes and
    [printbuf_nul_terminate] itself. *)
Definition ends_terminated (f : call) : bool :=
  match f with
  | Call_printbuf_nul_terminate => true
  | _ => is_public_write f
  end.

(** * Properties *)

(** ** Machine arithmetic *)

Lemma u32_true z : u32 z = true <-> 0 <= z < 2 ^ 32.
Proof. unfold u32. rewrite andb_true_iff, Z.leb_le, Z.ltb_lt. tauto. Qed.

Lemma u8_true z : u8 z = true <-> 0 <= z < 2 ^ 8.
Proof. unfold u8. rewrite andb_true_iff, Z.leb_le, Z.ltb_lt. tauto. Qed.

Lemma wrap32_small z : 0 <= z < 2 ^ 32 -> wrap32 z = z.
Proof. intros H. unfold wrap32. now apply Z.mod_small. Qed.

Lemma wrap32_range z : 0 <= wrap32 z < 2 ^ 32.
Proof. unfold wrap32. apply Z.mod_pos_bound. reflexivity. Qed.

Lemma u32_wrap32 z : u32 (wrap32 z) = true.
Proof. apply u32_true, wrap32_range. Qed.

Lemma add32_small a b : 0 <= a + b < 2 ^ 32 -> add32 a b = a + b.
Proof. apply wrap32_small. Qed.

Lemma sub32_small a b : 0 <= a - b < 2 ^ 32 -> sub32 a b = a - b.
Proof. apply wrap32_small. Qed.

Lemma add32_sub32 p n k : add32 (p + k) (sub32 n k) = add32 p n.
Proof.
  unfold add32, sub32, wrap32.
  rewrite Z.add_mod_idemp_r by discriminate. f_equal. lia.
Qed.

Lemma wrap8_range z : 0 <= wrap8 z < 2 ^ 8.
Proof. unfold wrap8. apply Z.mod_pos_bound. reflexivity. Qed.

(** ** Well-formed buffers *)

Lemma fields_ok_elim out :
  fields_ok out = true ->
  0 <= size out < 2 ^ 32 /\ 0 <= pos out < 2 ^ 32.
Proof.
  unfold fields_ok. rewrite !andb_true_iff, !u32_true. tauto.
Qed.

Lemma printbuf_ok_elim out :
  printbuf_ok out = true ->
  0 <= size out < 2 ^ 32 /\ 0 <= pos out < 2 ^ 32
  /\ Z.of_nat (length (buf out)) = size out.
Proof.
  unfold printbuf_ok, storage_ok. rewrite andb_true_iff, Z.eqb_eq.
  intros [H1 H2]. apply fields_ok_elim in H1. tauto.
Qed.

Lemma printbuf_remaining_eq out :
  fields_ok out = true ->
  printbuf_remaining out = Z.max 0 (size out - pos out - 1).
Proof.
  intros H. apply fields_ok_elim in H. unfold printbuf_remaining.
  destruct (Z.ltb_spec (pos out) (size out)).
  - rewrite (sub32_small (size out)) by lia. rewrite sub32_small by lia. lia.
  - lia.
Qed.

Lemma printbuf_written_eq out :
  fields_ok out = true ->
  printbuf_written out =
  if size out =? 0 then 0 else Z.min (pos out) (size out - 1).
Proof.
  intros H. apply fields_ok_elim in H. unfold printbuf_written.
  destruct (Z.eqb_spec (size out) 0); simpl; [reflexivity|].
  rewrite sub32_small by lia. reflexivity.
Qed.

(** ** The accessors *)

(** C2: [printbuf_written] returns [min(pos, size - 1)] when [size > 0] and
    0 when [size == 0]. *)
Theorem printbuf_written_spec (out : printbuf) :
  fields_ok out = true ->
  (0 < size out -> printbuf_written out = Z.min (pos out) (size out - 1))
  /\ (size out = 0 -> printbuf_written out = 0).
Proof.
  intros H. rewrite (printbuf_written_eq _ H).
  split; intros Hs; destruct (Z.eqb_spec (size out) 0); lia.
Qed.

Lemma printbuf_written_spec_witness :
  fields_ok (PRINTBUF_EXTERN (replicate 8 zero) 8) = true
  /\ printbuf_written
       (with_pos (PRINTBUF_EXTERN (replicate 8 zero) 8) 11) = 7
  /\ printbuf_written PRINTBUF = 0.
Proof.
  split; [reflexivity|]. split.
  - apply (printbuf_written_spec
             (with_pos (PRINTBUF_EXTERN (replicate 8 zero) 8) 11));
      [reflexivity | simpl; lia].
  - apply (printbuf_written_spec PRINTBUF); reflexivity.
Defined.




(** C10: [printbuf_reset] sets [pos], [allocation_failure], [indent],
    [nr_tabstops] and [cur_tabstop] to 0 and leaves every other field as it
    was, [last_newline] and [last_field] among them. *)
Theorem printbuf_reset_frame (b : printbuf) :
  printbuf_reset b =
  {| buf := buf b;
     size := size b;
     pos := 0;
     last_newline := last_newline b;
     last_field := last_field b;
     indent := 0;
     atomic := atomic b;
     allocation_failure := false;
     heap_allocated := heap_allocated b;
     si_units := si_units b;
     human_readable_units := human_readable_units b;
     has_indent_or_tabstops := has_indent_or_tabstops b;
     suppress_indent_tabstop_handling := suppress_indent_tabstop_handling b;
     nr_tabstops := 0;
     cur_tabstop := 0;
     _tabstops := _tabstops b |}.
Proof. reflexivity. Qed.

(** ** Stores and loops *)

Lemma printbuf_ok_update out out' :
  printbuf_ok out = true ->
  last_newline out' = last_newline out ->
  last_field out' = last_field out ->
  indent out' = indent out ->
  nr_tabstops out' = nr_tabstops out ->
  cur_tabstop out' = cur_tabstop out ->
  _tabstops out' = _tabstops out ->
  u8 (atomic out') = true ->
  u32 (pos out') = true ->
  u32 (size out') = true ->
  Z.of_nat (length (buf out')) = size out' ->
  printbuf_ok out' = true.
Proof.
  unfold printbuf_ok, fields_ok, storage_ok.
  intros H E1 E2 E3 E4 E5 E6 Ha Hp Hs Hl.
  apply Z.eqb_eq in Hl.
  rewrite E1, E2, E3, E4, E5, E6, Ha, Hp, Hs, Hl.
  rewrite !andb_true_iff in *. intuition.
Qed.

Lemma printbuf_ok_atomic out :
  printbuf_ok out = true -> u8 (atomic out) = true.
Proof.
  unfold printbuf_ok, fields_ok. rewrite !andb_true_iff. tauto.
Qed.

(** A buffer updated from the well-formed [out], whose well-formedness is
    [H]: what is left to show are the ranges of [atomic], [pos] and [size]
    and the length of the storage. *)
Ltac updated_from H :=
  apply (printbuf_ok_update _ _ H); try reflexivity; cbn;
  [ try (now apply printbuf_ok_atomic)
  | try apply u32_wrap32; try (now apply u32_true)
  | try (now apply u32_true)
  | ].

Lemma store_in out i c :
  Z.of_nat (length (buf out)) = size out ->
  0 <= i < size out ->
  store out i c = Some (with_buf out (<[Z.to_nat i := c]> (buf out))).
Proof.
  intros Hl H. unfold store. rewrite Hl.
  destruct (Z.leb_spec 0 i); [|lia].
  destruct (Z.ltb_spec i (size out)); [|lia].
  reflexivity.
Qed.

Lemma chars_loop_inserts c k : forall out,
  Z.of_nat (length (buf out)) = size out ->
  0 <= pos out ->
  (0 < Z.of_nat k -> pos out + Z.of_nat k <= size out) ->
  size out < 2 ^ 32 ->
  chars_loop k c out =
  Some (with_pos
          (with_buf out
             (list_inserts (Z.to_nat (pos out)) (replicate k c) (buf out)))
          (pos out + Z.of_nat k)).
Proof.
  induction k as [|k IH]; intros out Hlen H0 Hk Hl.
  - simpl. rewrite Z.add_0_r. destruct out; reflexivity.
  - cbn [chars_loop]. rewrite store_in by lia. cbn [mbind option_bind].
    rewrite IH; cbn [pos buf size with_pos with_buf];
      rewrite ?length_insert, ?add32_small; try lia.
    f_equal. unfold with_pos, with_buf. cbn. f_equal; [|lia].
    replace (Z.to_nat (pos out + 1)) with (S (Z.to_nat (pos out))) by lia.
    symmetry. apply list_insert_inserts_lt. lia.
Qed.

Lemma bytes_loop_inserts b k : forall i out,
  Z.of_nat (length (buf out)) = size out ->
  0 <= pos out ->
  (0 < Z.of_nat k -> pos out + Z.of_nat k <= size out) ->
  size out < 2 ^ 32 ->
  0 <= i -> i + Z.of_nat k <= Z.of_nat (length b) -> i + Z.of_nat k < 2 ^ 32 ->
  bytes_loop k b i out =
  Some (with_pos
          (with_buf out
             (list_inserts (Z.to_nat (pos out))
                (take k (drop (Z.to_nat i) b)) (buf out)))
          (pos out + Z.of_nat k)).
Proof.
  induction k as [|k IH]; intros i out Hlen H0 Hk Hl Hi Hb Hi32.
  - simpl. rewrite Z.add_0_r. destruct out; reflexivity.
  - cbn [bytes_loop].
    destruct (lookup_lt_is_Some_2 b (Z.to_nat i)) as [x Hx]; [lia|].
    rewrite Hx. cbn [mbind option_bind].
    rewrite store_in by lia. cbn [mbind option_bind].
    rewrite IH; cbn [pos buf size with_pos with_buf];
      rewrite ?length_insert, ?add32_small; try lia.
    f_equal. unfold with_pos, with_buf. cbn. f_equal; [|lia].
    rewrite (drop_S _ _ _ Hx). cbn [take list_inserts].
    replace (Z.to_nat (pos out + 1)) with (S (Z.to_nat (pos out))) by lia.
    replace (Z.to_nat (i + 1)) with (S (Z.to_nat i)) by lia.
    symmetry. apply list_insert_inserts_lt. lia.
Qed.

Lemma strlen_bounds str : 0 <= strlen str <= Z.of_nat (length str).
Proof.
  induction str as [|c str IH]; simpl; [lia|].
  destruct (Ascii.eqb c zero); lia.
Qed.

(** ** The closed forms keep buffers well formed *)

Lemma printbuf_ok_fields out : printbuf_ok out = true -> fields_ok out = true.
Proof. unfold printbuf_ok. rewrite andb_true_iff. tauto. Qed.

Lemma put_ok out l : printbuf_ok out = true -> printbuf_ok (put out l) = true.
Proof.
  intros H. destruct (printbuf_ok_elim _ H) as (Hs & Hp & Hl).
  updated_from H. now rewrite length_inserts.
Qed.

Lemma terminate_ok out :
  printbuf_ok out = true -> printbuf_ok (terminate out) = true.
Proof.
  intros H. destruct (printbuf_ok_elim _ H) as (Hs & Hp & Hl).
  unfold terminate. destruct (size out =? 0); [exact H|].
  updated_from H. now rewrite length_insert.
Qed.

Lemma pos_terminate out : pos (terminate out) = pos out.
Proof. unfold terminate. now destruct (size out =? 0). Qed.

Lemma size_terminate out : size (terminate out) = size out.
Proof. unfold terminate. now destruct (size out =? 0). Qed.

Lemma terminate_nul out :
  printbuf_ok out = true -> 0 < size out ->
  buf (terminate out) !! Z.to_nat (Z.min (pos out) (size out - 1))
  = Some zero.
Proof.
  intros H Hs. destruct (printbuf_ok_elim _ H) as (_ & Hp & Hl).
  unfold terminate. destruct (Z.eqb_spec (size out) 0); [lia|].
  cbn. apply list_lookup_insert_eq. lia.
Qed.

Lemma make_room_extern A out n :
  heap_allocated out = false -> printbuf_make_room A out n = out.
Proof. intros H. unfold printbuf_make_room. now rewrite H. Qed.

Lemma make_room_spec A out n :
  printbuf_ok out = true ->
  printbuf_ok (printbuf_make_room A out n) = true
  /\ pos (printbuf_make_room A out n) = pos out
  /\ size out <= size (printbuf_make_room A out n)
  /\ heap_allocated (printbuf_make_room A out n) = heap_allocated out.
Proof.
  intros H. destruct (printbuf_ok_elim _ H) as (Hs & Hp & Hl).
  unfold printbuf_make_room.
  destruct (negb (heap_allocated out) || allocation_failure out);
    [repeat split; [exact H | lia]|].
  destruct (Z.gtb_spec (pos out + n + 1) (size out)) as [Hneed|_];
    [|repeat split; [exact H | lia]].
  set (new_size := grown_capacity A (size out) (pos out + n + 1)).
  destruct ((pos out + n + 1 <=? new_size) && u32 new_size
            && try_alloc A (negb (atomic out =? 0)) new_size) eqn:E.
  - rewrite !andb_true_iff, Z.leb_le, u32_true in E.
    destruct E as ((Hlt & H32) & _). clearbody new_size.
    repeat split; cbn; try lia.
    updated_from H. rewrite length_resize. lia.
  - repeat split; cbn; try lia.
    updated_from H. exact Hl.
Qed.

Lemma make_room_ok A out n :
  printbuf_ok out = true -> printbuf_ok (printbuf_make_room A out n) = true.
Proof. intros H. apply make_room_spec, H. Qed.

(** A grown block keeps the bytes of the old one. *)
Lemma make_room_keeps A out n :
  printbuf_ok out = true ->
  take (length (buf out)) (buf (printbuf_make_room A out n)) = buf out.
Proof.
  intros H. destruct (printbuf_ok_elim _ H) as (Hs & Hp & Hl).
  unfold printbuf_make_room.
  destruct (negb (heap_allocated out) || allocation_failure out);
    [now apply take_ge|].
  destruct (Z.gtb_spec (pos out + n + 1) (size out)) as [Hneed|_];
    [|now apply take_ge].
  set (new_size := grown_capacity A (size out) (pos out + n + 1)).
  destruct ((pos out + n + 1 <=? new_size) && u32 new_size
            && try_alloc A (negb (atomic out =? 0)) new_size)
    eqn:E; [|cbn; now apply take_ge].
  rewrite !andb_true_iff, Z.leb_le in E.
  destruct E as ((Hlt & _) & _). clearbody new_size. cbn.
  rewrite take_resize_le by lia. now apply resize_all.
Qed.

(** ** The code computes the closed forms *)

Lemma __prt_char_reserved_eq out c :
  printbuf_ok out = true -> __prt_char_reserved out c = Some (put out [c]).
Proof.
  intros H. destruct (printbuf_ok_elim _ H) as (Hs & Hp & Hl).
  unfold __prt_char_reserved, put.
  rewrite (printbuf_remaining_eq _ (printbuf_ok_fields _ H)).
  destruct (Z.eqb_spec (Z.max 0 (size out - pos out - 1)) 0) as [E|E]; cbn.
  - rewrite E. cbn. destruct out; reflexivity.
  - rewrite store_in by lia. cbn.
    rewrite (take_ge [c]) by (cbn [length]; lia). reflexivity.
Qed.

Lemma __prt_chars_reserved_eq out c n :
  printbuf_ok out = true -> u32 n = true ->
  __prt_chars_reserved out c n = Some (put out (replicate (Z.to_nat n) c)).
Proof.
  intros H Hn. destruct (printbuf_ok_elim _ H) as (Hs & Hp & Hl).
  apply u32_true in Hn.
  unfold __prt_chars_reserved, put.
  rewrite (printbuf_remaining_eq _ (printbuf_ok_fields _ H)).
  rewrite chars_loop_inserts by lia. cbn.
  f_equal. unfold with_pos, with_buf. cbn. f_equal.
  - rewrite take_replicate. f_equal. f_equal. lia.
  - rewrite Z2Nat.id by lia. rewrite add32_sub32.
    rewrite length_replicate. f_equal. lia.
Qed.

Lemma printbuf_nul_terminate_eq A out :
  printbuf_ok out = true ->
  printbuf_nul_terminate A out = Some (terminate (printbuf_make_room A out 1)).
Proof.
  intros H0. assert (H := make_room_ok A out 1 H0).
  unfold printbuf_nul_terminate.
  set (out1 := printbuf_make_room A out 1) in *.
  destruct (printbuf_ok_elim _ H) as (Hs & Hp & Hl).
  unfold terminate.
  destruct (Z.ltb_spec (pos out1) (size out1)).
  - rewrite store_in by lia.
    destruct (Z.eqb_spec (size out1) 0); [lia|].
    now rewrite Z.min_l by lia.
  - destruct (Z.eqb_spec (size out1) 0); cbn; [reflexivity|].
    rewrite sub32_small by lia. rewrite store_in by lia.
    now rewrite Z.min_r by lia.
Qed.

Lemma wrap32_le z : 0 <= z -> 0 <= wrap32 z <= z.
Proof.
  intros H. split; [apply wrap32_range|].
  unfold wrap32. apply Z.mod_le; [exact H | reflexivity].
Qed.

Lemma prt_bytes_eq A out b n :
  printbuf_ok out = true -> u32 n = true -> n <= Z.of_nat (length b) ->
  prt_bytes A out b n =
  Some (terminate
          (printbuf_make_room A
             (put (printbuf_make_room A out n) (take (Z.to_nat n) b)) 1)).
Proof.
  intros H0 Hn Hb. apply u32_true in Hn.
  assert (H := make_room_ok A out n H0).
  unfold prt_bytes. set (out1 := printbuf_make_room A out n) in *.
  destruct (printbuf_ok_elim _ H) as (Hs & Hp & Hl).
  rewrite bytes_loop_inserts;
    rewrite ?(printbuf_remaining_eq _ (printbuf_ok_fields _ H)); try lia.
  cbn [mbind option_bind].
  rewrite <- (printbuf_nul_terminate_eq A _ (put_ok out1 _ H)).
  f_equal. unfold put, with_pos, with_buf. cbn. f_equal.
  - rewrite (printbuf_remaining_eq _ (printbuf_ok_fields _ H)).
    rewrite take_take. f_equal. f_equal. lia.
  - rewrite Z2Nat.id by lia. rewrite add32_sub32.
    rewrite length_take. f_equal. lia.
Qed.

Lemma prt_hex_digits_eq A out hi lo :
  printbuf_ok out = true ->
  (out ← __prt_char_reserved (printbuf_make_room A out 2) hi;
   out ← __prt_char_reserved out lo;
   printbuf_nul_terminate A out) =
  Some (terminate
          (printbuf_make_room A
             (put (put (printbuf_make_room A out 2) [hi]) [lo]) 1)).
Proof.
  intros H0. assert (H := make_room_ok A out 2 H0).
  rewrite __prt_char_reserved_eq by exact H. cbn [mbind option_bind].
  rewrite __prt_char_reserved_eq by now apply put_ok.
  cbn [mbind option_bind].
  apply printbuf_nul_terminate_eq. now do 2 apply put_ok.
Qed.

(** On a well-formed buffer and with well-typed arguments every operation of
    the header runs without a fault and computes its closed form. *)
Lemma run_effect A f out :
  printbuf_ok out = true -> args_ok f = true ->
  run A f out = Some (effect A f out).
Proof.
  intros H Hf. destruct f; cbn [run effect args_ok] in *.
  - now apply __prt_char_reserved_eq.
  - apply __prt_char_reserved_eq. now apply make_room_ok.
  - unfold prt_char, __prt_char.
    rewrite __prt_char_reserved_eq by now apply make_room_ok.
    cbn [mbind option_bind].
    apply printbuf_nul_terminate_eq. now apply put_ok, make_room_ok.
  - now apply __prt_chars_reserved_eq.
  - unfold prt_chars.
    rewrite __prt_chars_reserved_eq by (try apply make_room_ok; assumption).
    cbn [mbind option_bind].
    apply printbuf_nul_terminate_eq. now apply put_ok, make_room_ok.
  - apply andb_true_iff in Hf as [Hn Hb]. apply Z.leb_le in Hb.
    now apply prt_bytes_eq.
  - unfold prt_str. pose proof (strlen_bounds str) as Hb.
    pose proof (wrap32_le (strlen str) (proj1 Hb)).
    apply prt_bytes_eq; [exact H | apply u32_wrap32 | lia].
  - now apply prt_hex_digits_eq.
  - now apply prt_hex_digits_eq.
  - now apply printbuf_nul_terminate_eq.
  - reflexivity.
  - reflexivity.
  - reflexivity.
Qed.

Lemma printbuf_reset_ok out :
  printbuf_ok out = true -> printbuf_ok (printbuf_reset out) = true.
Proof.
  unfold printbuf_ok, fields_ok, storage_ok. cbn.
  rewrite !andb_true_iff. intuition.
Qed.

Lemma printbuf_atomic_ok out z :
  printbuf_ok out = true -> printbuf_ok (with_atomic out (wrap8 z)) = true.
Proof.
  intros H. destruct (printbuf_ok_elim _ H) as (Hs & Hp & Hl).
  updated_from H; [apply u8_true, wrap8_range | exact Hl].
Qed.

Lemma effect_ok A f out :
  printbuf_ok out = true -> printbuf_ok (effect A f out) = true.
Proof.
  intros H. destruct f; cbn [effect];
    repeat match goal with
      | |- printbuf_ok (terminate _) = true => apply terminate_ok
      | |- printbuf_ok (printbuf_make_room _ _ _) = true => apply make_room_ok
      | |- printbuf_ok (put _ _) = true => apply put_ok
      | |- printbuf_ok (printbuf_reset _) = true => apply printbuf_reset_ok
      | |- printbuf_ok (printbuf_atomic_inc _) = true =>
          apply printbuf_atomic_ok
      | |- printbuf_ok (printbuf_atomic_dec _) = true =>
          apply printbuf_atomic_ok
      end;
    exact H.
Qed.

Lemma run_all_ok A fs : forall out,
  printbuf_ok out = true -> forallb args_ok fs = true ->
  exists out', run_all A fs out = Some out' /\ printbuf_ok out' = true.
Proof.
  induction fs as [|f fs IH]; intros out H Hfs; cbn in *.
  - now exists out.
  - apply andb_true_iff in Hfs as [Hf Hfs].
    rewrite (run_effect A f out H Hf). cbn.
    apply IH; [now apply effect_ok | exact Hfs].
Qed.

(** ** The reserved variants *)

Lemma pos_make_room A out n : pos (printbuf_make_room A out n) = pos out.
Proof.
  unfold printbuf_make_room.
  repeat match goal with |- context [if ?b then _ else _] => destruct b end;
    reflexivity.
Qed.

Lemma put_stores_within out l :
  printbuf_ok out = true ->
  stores_within out (put out l)
    (Z.min (Z.of_nat (length l)) (printbuf_remaining out)).
Proof.
  intros H. destruct (printbuf_ok_elim _ H) as (Hs & Hp & Hl).
  rewrite (printbuf_remaining_eq _ (printbuf_ok_fields _ H)).
  unfold stores_within, put. cbn.
  rewrite (printbuf_remaining_eq _ (printbuf_ok_fields _ H)).
  split; [reflexivity|]. split; [apply length_inserts|].
  intros i Hi.
  set (k := take (Z.to_nat (Z.max 0 (size out - pos out - 1))) l) in *.
  assert (Hk : Z.of_nat (length k)
               = Z.min (Z.of_nat (length l))
                   (Z.max 0 (size out - pos out - 1))).
  { unfold k. rewrite length_take. lia. }
  destruct (decide (i < Z.to_nat (pos out))%nat) as [Hlt|Hge].
  { now rewrite list_lookup_inserts_lt in Hi by exact Hlt. }
  destruct (decide (Z.to_nat (pos out) + length k <= i)%nat) as [Hout|Hin].
  { now rewrite list_lookup_inserts_ge in Hi by exact Hout. }
  lia.
Qed.

(** C4, as the code has it: [__prt_char_reserved] advances [pos] by 1 and
    [__prt_chars_reserved(out, c, n)] advances it by [n] modulo [2^32], the
    arithmetic of the [unsigned] field, whatever room remains: by exactly 1
    and exactly [n] when [pos + 1] and [pos + n] are below [2^32]; the bytes
    they store are among the [min(n, printbuf_remaining(out))] ones from the
    cursor, and none is at the terminator slot [size - 1] or beyond. *)
Theorem reserved_variants_contract (out : printbuf) (c : ascii) (n : Z) :
  printbuf_ok out = true -> u32 n = true ->
  (exists out1,
      __prt_char_reserved out c = Some out1
      /\ pos out1 = add32 (pos out) 1
      /\ (pos out + 1 < 2 ^ 32 -> pos out1 = pos out + 1)
      /\ stores_within out out1 (Z.min 1 (printbuf_remaining out)))
  /\ (exists outn,
      __prt_chars_reserved out c n = Some outn
      /\ pos outn = add32 (pos out) n
      /\ (pos out + n < 2 ^ 32 -> pos outn = pos out + n)
      /\ stores_within out outn (Z.min n (printbuf_remaining out))).
Proof.
  intros H Hn. destruct (printbuf_ok_elim _ H) as (Hs & Hp & Hl).
  pose proof (proj1 (u32_true n) Hn) as Hn'.
  split.
  - exists (put out [c]). split; [now apply __prt_char_reserved_eq|].
    split; [reflexivity|]. split.
    + intros Hf. cbn. apply add32_small. lia.
    + apply (put_stores_within out [c] H).
  - exists (put out (replicate (Z.to_nat n) c)).
    split; [now apply __prt_chars_reserved_eq|].
    assert (E : Z.of_nat (length (replicate (Z.to_nat n) c)) = n).
    { rewrite length_replicate. lia. }
    split; [cbn; now rewrite E|]. split.
    + intros Hf. cbn. rewrite E. apply add32_small. lia.
    + pose proof (put_stores_within out (replicate (Z.to_nat n) c) H) as W.
      now rewrite E in W.
Qed.

Lemma reserved_variants_contract_witness :
  exists outn,
    __prt_chars_reserved
      (with_pos (PRINTBUF_EXTERN (replicate 8 zero) 8) 5) "x"%char 6
    = Some outn
    /\ pos outn = 11.
Proof.
  destruct (reserved_variants_contract
              (with_pos (PRINTBUF_EXTERN (replicate 8 zero) 8) 5) "x"%char 6
              eq_refl eq_refl) as [_ (outn & Hrun & _ & Hpos & _)].
  exists outn. split; [exact Hrun|]. apply Hpos. cbn. lia.
Defined.

(** C4, as the spec has it, fails when the 32-bit cursor wraps around:
    [__prt_chars_reserved] with [n = 2^32 - 1] on a buffer whose [pos] is 5
    leaves [pos] at 4, not at [5 + n]; and [__prt_char_reserved] on a buffer
    whose [pos] is [2^32 - 1] leaves it at 0. *)
Lemma reserved_advance_wraps :
  let out := with_pos (PRINTBUF_EXTERN (replicate 8 zero) 8) 5 in
  let last := with_pos (PRINTBUF_EXTERN (replicate 8 zero) 8) (2 ^ 32 - 1) in
  printbuf_ok out = true
  /\ u32 (2 ^ 32 - 1) = true
  /\ printbuf_ok last = true
  /\ exists outn out1,
      __prt_chars_reserved out "x" (2 ^ 32 - 1) = Some outn
      /\ pos outn = 4
      /\ pos outn <> pos out + (2 ^ 32 - 1)
      /\ __prt_char_reserved last "x" = Some out1
      /\ pos out1 = 0
      /\ pos out1 <> pos last + 1.
Proof.
  repeat (split; [reflexivity|]).
  eexists. eexists. split; [vm_compute; reflexivity|].
  split; [reflexivity|]. split; [vm_compute; discriminate|].
  split; [vm_compute; reflexivity|].
  split; [reflexivity|]. vm_compute; discriminate.
Qed.

(** ** Stores stay inside the buffer *)

(** A store at an index at or beyond the capacity is a fault. *)
Lemma store_beyond_capacity out i c : size out <= i -> store out i c = None.
Proof.
  intros Hi. unfold store. destruct (Z.ltb_spec i (size out)); [lia|].
  now rewrite andb_false_r.
Qed.

(** C5: no operation of the header stores a byte at an index at or beyond
    the capacity: no sequence of them faults, the storage stays [size] bytes
    long, and every index below [min(pos, size)] is inside it. *)
Theorem stores_in_bounds (A : allocator) (fs : list call) (out : printbuf) :
  printbuf_ok out = true -> forallb args_ok fs = true ->
  exists out',
    run_all A fs out = Some out'
    /\ Z.of_nat (length (buf out')) = size out'
    /\ forall i : nat,
         Z.of_nat i < Z.min (pos out') (size out') ->
         is_Some (buf out' !! i).
Proof.
  intros H Hfs.
  destruct (run_all_ok A fs out H Hfs) as (out' & Hrun & Hok).
  destruct (printbuf_ok_elim _ Hok) as (Hs & Hp & Hl).
  exists out'. split; [exact Hrun|]. split; [exact Hl|].
  intros i Hi. apply lookup_lt_is_Some_2. lia.
Qed.

Lemma stores_in_bounds_witness :
  exists out',
    run_all generous
      [Call_prt_str (bytes_of "hello world"); Call__prt_chars_reserved "-" 9;
       Call_prt_hex_byte 171; Call_printbuf_nul_terminate]
      (PRINTBUF_EXTERN (replicate 8 zero) 8) = Some out'
    /\ Z.of_nat (length (buf out')) = size out'.
Proof.
  destruct (stores_in_bounds generous
              [Call_prt_str (bytes_of "hello world");
               Call__prt_chars_reserved "-" 9;
               Call_prt_hex_byte 171; Call_printbuf_nul_terminate]
              (PRINTBUF_EXTERN (replicate 8 zero) 8) eq_refl eq_refl)
    as (out' & Hrun & Hl & _).
  exists out'. split; [exact Hrun | exact Hl].
Defined.

(** ** Nul termination *)

Lemma size_make_room A out n :
  printbuf_ok out = true -> size out <= size (printbuf_make_room A out n).
Proof. intros H. apply make_room_spec, H. Qed.

(** A public write ends with [printbuf_nul_terminate] on a well-formed
    buffer that is no smaller than the one it started from. *)
Lemma public_write_shape A f out :
  printbuf_ok out = true -> is_public_write f = true ->
  exists mid,
    printbuf_ok mid = true /\ size out <= size mid
    /\ effect A f out = terminate (printbuf_make_room A mid 1).
Proof.
  intros H Hf.
  destruct f; try discriminate Hf; cbn [effect];
    (eexists; split; [|split; [|reflexivity]]);
    repeat match goal with
      | |- printbuf_ok (printbuf_make_room _ _ _) = true => apply make_room_ok
      | |- printbuf_ok (put _ _) = true => apply put_ok
      end; try exact H;
    cbn [size put with_pos with_buf]; now apply size_make_room.
Qed.

(** C6: after every public write on a buffer with [size > 0] the byte at
    index [min(pos, size - 1)] is 0, whatever length was requested and
    whether or not the output was truncated. *)
Theorem public_write_nul_terminated
  (A : allocator) (f : call) (out : printbuf) :
  printbuf_ok out = true -> args_ok f = true -> is_public_write f = true ->
  0 < size out ->
  exists out',
    run A f out = Some out'
    /\ 0 < size out'
    /\ buf out' !! Z.to_nat (Z.min (pos out') (size out' - 1)) = Some zero.
Proof.
  intros H Ha Hf Hs.
  exists (effect A f out). split; [now apply run_effect|].
  destruct (public_write_shape A f out H Hf) as (mid & Hmid & Hle & ->).
  pose proof (make_room_ok A mid 1 Hmid) as Hok.
  pose proof (size_make_room A mid 1 Hmid) as Hle'.
  rewrite size_terminate, pos_terminate.
  split; [lia|]. apply terminate_nul; [exact Hok | lia].
Qed.

Lemma public_write_nul_terminated_witness :
  exists out',
    run generous (Call_prt_str (bytes_of "hello world"))
      (PRINTBUF_EXTERN (replicate 8 "x"%char) 8) = Some out'
    /\ buf out' !! Z.to_nat (Z.min (pos out') (size out' - 1)) = Some zero.
Proof.
  destruct (public_write_nul_terminated generous
              (Call_prt_str (bytes_of "hello world"))
              (PRINTBUF_EXTERN (replicate 8 "x"%char) 8)
              eq_refl eq_refl eq_refl eq_refl)
    as (out' & Hrun & _ & Hnul).
  exists out'. split; [exact Hrun | exact Hnul].
Defined.

(** ** The cursor *)

Lemma requested_len_nonneg f : args_ok f = true -> 0 <= requested_len f.
Proof.
  destruct f; cbn; rewrite ?andb_true_iff, ?u32_true; try lia.
  intros _. apply strlen_bounds.
Qed.

Lemma length_requested f :
  args_ok f = true -> Z.of_nat (length (requested f)) = requested_len f.
Proof.
  destruct f; cbn [requested requested_len length args_ok];
    rewrite ?andb_true_iff, ?u32_true, ?Z.leb_le; intros Hf;
    rewrite ?length_replicate, ?length_take; try lia.
  pose proof (strlen_bounds str). lia.
Qed.

Lemma pos_put out l :
  0 <= pos out -> pos out + Z.of_nat (length l) < 2 ^ 32 ->
  pos (put out l) = pos out + Z.of_nat (length l).
Proof. intros Hp Hfit. cbn. apply add32_small. lia. Qed.

Lemma pos_effect A f out :
  is_reset f = false -> args_ok f = true ->
  0 <= pos out -> pos out + requested_len f < 2 ^ 32 ->
  pos (effect A f out) = pos out + requested_len f.
Proof.
  intros Hr Ha Hp Hfit.
  pose proof (length_requested f Ha) as Hlen.
  pose proof (requested_len_nonneg f Ha) as Hn.
  destruct f; try discriminate Hr; cbn [effect requested requested_len] in *;
    rewrite ?pos_terminate, ?pos_make_room;
    rewrite ?(wrap32_small (strlen str)) by lia;
    try (rewrite pos_put; rewrite ?pos_make_room; lia);
    try (cbn; lia).
  - assert (E : pos (put (printbuf_make_room A out 2) [hex_asc_hi byte])
               = pos out + 1)
      by (rewrite pos_put; rewrite pos_make_room; cbn [length]; lia).
    rewrite pos_put; rewrite E; cbn [length]; lia.
  - assert (E : pos (put (printbuf_make_room A out 2) [hex_asc_upper_hi byte])
               = pos out + 1)
      by (rewrite pos_put; rewrite pos_make_room; cbn [length]; lia).
    rewrite pos_put; rewrite E; cbn [length]; lia.
Qed.

(** C8, as the code has it: every operation of the header other than
    [printbuf_reset] leaves [pos] greater than or equal to what it was, as
    long as the cursor does not wrap around: [pos] plus the requested length
    is below [2^32].  It then advances by the requested length. *)
Theorem cursor_monotone (A : allocator) (f : call) (out : printbuf) :
  printbuf_ok out = true -> args_ok f = true -> is_reset f = false ->
  pos out + requested_len f < 2 ^ 32 ->
  exists out',
    run A f out = Some out'
    /\ pos out <= pos out'
    /\ pos out' = pos out + requested_len f.
Proof.
  intros H Ha Hr Hfit. destruct (printbuf_ok_elim _ H) as (Hs & Hp & Hl).
  exists (effect A f out). split; [now apply run_effect|].
  pose proof (requested_len_nonneg f Ha).
  rewrite pos_effect by (assumption || lia). lia.
Qed.

Lemma cursor_monotone_witness :
  exists out',
    run generous (Call_prt_chars "-" 20)
      (with_pos (PRINTBUF_EXTERN (replicate 8 zero) 8) 3) = Some out'
    /\ 3 <= pos out'.
Proof.
  destruct (cursor_monotone generous (Call_prt_chars "-" 20)
              (with_pos (PRINTBUF_EXTERN (replicate 8 zero) 8) 3)
              eq_refl eq_refl eq_refl eq_refl)
    as (out' & Hrun & Hle & _).
  exists out'. split; [exact Hrun | exact Hle].
Defined.

(** C8, as the spec has it, fails when the 32-bit cursor wraps around:
    [prt_chars] with [n = 2^32 - 1] takes the cursor of a fresh buffer to
    [2^32 - 1], and [__prt_char_reserved] then leaves it at 0. *)
Lemma cursor_wraps_around :
  exists out out',
    run generous (Call_prt_chars "a" (2 ^ 32 - 1))
      (PRINTBUF_EXTERN (replicate 8 zero) 8) = Some out
    /\ printbuf_ok out = true
    /\ pos out = 2 ^ 32 - 1
    /\ run generous (Call__prt_char_reserved "b") out = Some out'
    /\ pos out' = 0
    /\ ~ pos out <= pos out'.
Proof.
  eexists. eexists. split; [vm_compute; reflexivity|].
  repeat (split; [reflexivity|]).
  intros H. vm_compute in H. now apply H.
Qed.

(** ** The truncation law of external buffers *)

Lemma take_inserts_0 (k rest : list ascii) :
  (length k <= length rest)%nat ->
  take (length k) (list_inserts 0 k rest) = k.
Proof.
  intros H. rewrite <- (take_drop (length k) rest).
  rewrite list_inserts_0_r by (rewrite length_take; lia).
  apply take_app_length.
Qed.

Lemma take_length_take (r : nat) (l : list ascii) :
  take (length (take r l)) l = take r l.
Proof.
  rewrite length_take. destruct (Nat.le_ge_cases r (length l)).
  - now rewrite Nat.min_l.
  - rewrite Nat.min_r by assumption. now rewrite !take_ge by lia.
Qed.

Lemma put_extern_inv cap log out l :
  0 < cap -> extern_inv cap log out ->
  Z.of_nat (length log) + Z.of_nat (length l) < 2 ^ 32 ->
  extern_inv cap (log ++ l) (put out l).
Proof.
  intros Hcap (Hok & Hheap & Hsz & Hpos & Htake) Hfit.
  destruct (printbuf_ok_elim _ Hok) as (Hs & Hp & Hl).
  split; [now apply put_ok|]. split; [exact Hheap|]. split; [exact Hsz|].
  split; [rewrite pos_put by lia; rewrite length_app; lia|].
  unfold put. cbn [buf with_pos with_buf].
  rewrite (printbuf_remaining_eq _ (printbuf_ok_fields _ Hok)).
  rewrite Hpos, Hsz, Nat2Z.id, length_app.
  set (P := length log) in *.
  destruct (Z_lt_le_dec (Z.of_nat P) (cap - 1)) as [Hroom|Hfull].
  - assert (Hlog : take P (buf out) = log).
    { replace (Z.to_nat (Z.min (Z.of_nat P) (cap - 1))) with P in Htake
        by lia.
      rewrite Htake. apply take_ge. unfold P. lia. }
    set (k := take (Z.to_nat (Z.max 0 (cap - Z.of_nat P - 1))) l).
    assert (Hk : length k
                 = Nat.min (Z.to_nat (Z.max 0 (cap - Z.of_nat P - 1)))
                     (length l))
      by apply length_take.
    replace (Z.to_nat (Z.min (Z.of_nat (P + length l)) (cap - 1)))
      with (length log + length k)%nat by (fold P; lia).
    rewrite <- (take_drop P (buf out)), Hlog.
    replace P with (length log + 0)%nat at 1 by (unfold P; lia).
    rewrite list_inserts_app_r, !take_app_add. f_equal.
    rewrite take_inserts_0 by (rewrite length_drop; lia).
    symmetry. apply take_length_take.
  - replace (Z.to_nat (Z.max 0 (cap - Z.of_nat P - 1))) with 0%nat by lia.
    rewrite take_0. cbn [list_inserts].
    replace (Z.to_nat (Z.min (Z.of_nat (P + length l)) (cap - 1)))
      with (Z.to_nat (Z.min (Z.of_nat P) (cap - 1))) by lia.
    rewrite Htake. symmetry. apply take_app_le. unfold P. lia.
Qed.

Lemma terminate_extern_inv cap log out :
  0 < cap -> extern_inv cap log out -> extern_inv cap log (terminate out).
Proof.
  intros Hcap (Hok & Hheap & Hsz & Hpos & Htake).
  split; [now apply terminate_ok|].
  rewrite size_terminate, pos_terminate.
  unfold terminate. destruct (Z.eqb_spec (size out) 0); [lia|].
  cbn [heap_allocated buf with_buf]. repeat (split; [assumption|]).
  rewrite take_insert_ge by lia. exact Htake.
Qed.

Lemma write_extern_inv A cap log out l n :
  0 < cap -> extern_inv cap log out ->
  Z.of_nat (length log) + Z.of_nat (length l) < 2 ^ 32 ->
  extern_inv cap (log ++ l)
    (terminate
       (printbuf_make_room A (put (printbuf_make_room A out n) l) 1)).
Proof.
  intros Hcap Hinv Hfit.
  rewrite (make_room_extern A out) by apply Hinv.
  rewrite make_room_extern by apply Hinv.
  now apply terminate_extern_inv, put_extern_inv.
Qed.

Lemma hex_extern_inv A cap log out hi lo :
  0 < cap -> extern_inv cap log out ->
  Z.of_nat (length log) + 2 < 2 ^ 32 ->
  extern_inv cap (log ++ [hi; lo])
    (terminate
       (printbuf_make_room A (put (put (printbuf_make_room A out 2) [hi]) [lo])
          1)).
Proof.
  intros Hcap Hinv Hfit.
  rewrite (make_room_extern A out) by apply Hinv.
  rewrite make_room_extern by apply Hinv.
  apply terminate_extern_inv; [assumption|].
  change (log ++ [hi; lo]) with (log ++ [hi] ++ [lo]).
  rewrite app_assoc.
  apply put_extern_inv; [assumption | | rewrite length_app; cbn; lia].
  apply put_extern_inv; [assumption .. | cbn; lia].
Qed.

Lemma effect_extern_inv A cap log f out :
  0 < cap -> extern_inv cap log out ->
  is_public_write f = true -> args_ok f = true ->
  Z.of_nat (length log) + requested_len f < 2 ^ 32 ->
  extern_inv cap (log ++ requested f) (effect A f out).
Proof.
  intros Hcap Hinv Hf Ha Hfit.
  pose proof (length_requested f Ha) as Hlen.
  pose proof (requested_len_nonneg f Ha) as Hn.
  destruct f; try discriminate Hf; cbn [effect requested requested_len] in *.
  - apply write_extern_inv; [assumption .. | lia].
  - apply write_extern_inv; [assumption .. | lia].
  - apply write_extern_inv; [assumption .. | lia].
  - rewrite (wrap32_small (strlen str)) by lia.
    apply write_extern_inv; [assumption .. | lia].
  - apply hex_extern_inv; assumption.
  - apply hex_extern_inv; assumption.
Qed.

Lemma requested_len_all_nonneg fs :
  forallb args_ok fs = true -> 0 <= requested_len_all fs.
Proof.
  induction fs as [|f fs IH]; cbn; [lia|].
  rewrite andb_true_iff. intros [Hf Hfs].
  pose proof (requested_len_nonneg f Hf). specialize (IH Hfs).
  unfold requested_len_all in IH. lia.
Qed.

Lemma run_all_extern_inv A cap fs : forall log out,
  0 < cap -> extern_inv cap log out ->
  forallb is_public_write fs = true -> forallb args_ok fs = true ->
  Z.of_nat (length log) + requested_len_all fs < 2 ^ 32 ->
  exists out',
    run_all A fs out = Some out'
    /\ extern_inv cap (log ++ requested_all fs) out'.
Proof.
  induction fs as [|f fs IH]; intros log out Hcap Hinv Hp Ha Hfit.
  - exists out. split; [reflexivity|].
    unfold requested_all. cbn. now rewrite app_nil_r.
  - cbn [forallb] in Hp, Ha.
    apply andb_true_iff in Hp as [Hf Hp]. apply andb_true_iff in Ha as [Haf Ha].
    pose proof (requested_len_nonneg f Haf).
    pose proof (requested_len_all_nonneg fs Ha).
    change (requested_len_all (f :: fs))
      with (requested_len f + requested_len_all fs) in Hfit.
    cbn [run_all].
    rewrite (run_effect A f out (proj1 Hinv) Haf). cbn [mbind option_bind].
    change (requested_all (f :: fs)) with (requested f ++ requested_all fs).
    rewrite app_assoc.
    apply IH; try assumption.
    + apply effect_extern_inv; try assumption. lia.
    + rewrite length_app, Nat2Z.inj_add, (length_requested f Haf). lia.
Qed.

Lemma PRINTBUF_EXTERN_ok storage cap :
  Z.of_nat (length storage) = cap -> 0 <= cap < 2 ^ 32 ->
  printbuf_ok (PRINTBUF_EXTERN storage cap) = true.
Proof.
  intros Hl Hcap. unfold printbuf_ok, fields_ok, storage_ok. cbn.
  rewrite (proj2 (u32_true cap) Hcap), (proj2 (Z.eqb_eq _ _) Hl).
  reflexivity.
Qed.

Lemma extern_inv_start out :
  printbuf_ok out = true -> heap_allocated out = false -> pos out = 0 ->
  extern_inv (size out) [] out.
Proof.
  intros H Hh Hp. repeat (split; [assumption || reflexivity|]). cbn [length].
  replace (Z.to_nat (Z.min (Z.of_nat 0) (size out - 1))) with 0%nat by lia.
  reflexivity.
Qed.

Lemma length_requested_all fs :
  forallb args_ok fs = true ->
  Z.of_nat (length (requested_all fs)) = requested_len_all fs.
Proof.
  induction fs as [|f fs IH]; intros Ha; [reflexivity|].
  cbn [forallb] in Ha. apply andb_true_iff in Ha as [Hf Ha].
  change (requested_all (f :: fs)) with (requested f ++ requested_all fs).
  change (requested_len_all (f :: fs))
    with (requested_len f + requested_len_all fs).
  rewrite length_app, Nat2Z.inj_add, (length_requested f Hf), (IH Ha).
  reflexivity.
Qed.

(** C1, as the code has it: on an external buffer of capacity [cap > 0]
    with the cursor at 0, as [PRINTBUF_EXTERN] and [printbuf_reset] leave
    it, after any sequence of public write primitives whose total requested
    length [L] is below [2^32], the cursor equals [L], [printbuf_written]
    returns [min(L, cap - 1)], and the bytes [data[0 .. min(L, cap - 1))]
    are the first [min(L, cap - 1)] bytes of the requested sequence. *)
Theorem extern_truncation_law
  (A : allocator) (out : printbuf) (fs : list call) :
  printbuf_ok out = true -> heap_allocated out = false ->
  0 < size out -> pos out = 0 ->
  forallb is_public_write fs = true -> forallb args_ok fs = true ->
  requested_len_all fs < 2 ^ 32 ->
  exists out',
    run_all A fs out = Some out'
    /\ Z.of_nat (length (requested_all fs)) = requested_len_all fs
    /\ size out' = size out
    /\ pos out' = requested_len_all fs
    /\ printbuf_written out' = Z.min (requested_len_all fs) (size out - 1)
    /\ take (Z.to_nat (Z.min (requested_len_all fs) (size out - 1)))
         (buf out')
       = take (Z.to_nat (Z.min (requested_len_all fs) (size out - 1)))
           (requested_all fs).
Proof.
  intros H Hh Hcap Hp0 Hp Ha Hfit.
  destruct (run_all_extern_inv A (size out) fs [] out)
    as (out' & Hrun & Hok & _ & Hsz & Hpos & Htake);
    [lia | now apply extern_inv_start | assumption .. |].
  cbn [app] in *. rewrite (length_requested_all fs Ha) in *.
  exists out'. split; [exact Hrun|]. split; [reflexivity|].
  split; [exact Hsz|]. split; [exact Hpos|]. split; [|exact Htake].
  rewrite (printbuf_written_eq _ (printbuf_ok_fields _ Hok)), Hsz, Hpos.
  destruct (Z.eqb_spec (size out) 0); [lia | reflexivity].
Qed.

Lemma extern_truncation_law_witness :
  exists out',
    run_all generous
      [Call_prt_str (bytes_of "hello"); Call_prt_char " ";
       Call_prt_hex_byte 171; Call_prt_chars "!" 3]
      (PRINTBUF_EXTERN (replicate 8 "x"%char) 8) = Some out'
    /\ pos out' = 11
    /\ printbuf_written out' = 7
    /\ take 7 (buf out') = bytes_of "hello a".
Proof.
  destruct (extern_truncation_law generous
              (PRINTBUF_EXTERN (replicate 8 "x"%char) 8)
              [Call_prt_str (bytes_of "hello"); Call_prt_char " ";
               Call_prt_hex_byte 171; Call_prt_chars "!" 3]
              eq_refl eq_refl eq_refl eq_refl eq_refl eq_refl eq_refl)
    as (out' & Hrun & _ & _ & Hpos & Hw & Htake).
  exists out'. repeat split; assumption.
Defined.

(** C1, as the spec has it, fails once the total requested length reaches
    [2^32]: the 32-bit cursor wraps around, and the next write lands at the
    start of the buffer. *)
Lemma extern_truncation_wraps :
  let fs := [Call_prt_chars "a" (2 ^ 32 - 1); Call_prt_char "b";
             Call_prt_char "c"] in
  forallb is_public_write fs = true
  /\ forallb args_ok fs = true
  /\ requested_len_all fs = 2 ^ 32 + 1
  /\ exists out',
      run_all generous fs (PRINTBUF_EXTERN (replicate 8 zero) 8) = Some out'
      /\ pos out' = 1
      /\ printbuf_written out' = 1
      /\ buf out' !! 0%nat = Some "c"%char
      /\ pos out' <> requested_len_all fs
      /\ printbuf_written out' <> Z.min (requested_len_all fs) (8 - 1).
Proof.
  repeat (split; [reflexivity|]).
  eexists. split; [vm_compute; reflexivity|].
  repeat (split; [reflexivity|]). split; vm_compute; discriminate.
Qed.

(** ** Reuse after a reset *)

Lemma same_view_accessors a b :
  same_view a b ->
  printbuf_remaining_size a = printbuf_remaining_size b
  /\ printbuf_remaining a = printbuf_remaining b
  /\ printbuf_written a = printbuf_written b
  /\ printbuf_overflowed a = printbuf_overflowed b
  /\ printbuf_text a = printbuf_text b.
Proof.
  intros (Hb & Hs & Hp & _).
  unfold printbuf_text, printbuf_remaining_size, printbuf_remaining,
    printbuf_written, printbuf_overflowed.
  now rewrite Hb, Hs, Hp.
Qed.

Lemma put_same_view a b l : same_view a b -> same_view (put a l) (put b l).
Proof.
  intros (Hb & Hs & Hp & Hrest). unfold same_view, put, printbuf_remaining.
  cbn. rewrite Hb, Hs, Hp. tauto.
Qed.

Lemma terminate_same_view a b :
  same_view a b -> same_view (terminate a) (terminate b).
Proof.
  intros (Hb & Hs & Hp & Hrest). unfold same_view, terminate.
  rewrite Hs. destruct (size b =? 0); cbn; rewrite ?Hb, ?Hs, ?Hp; tauto.
Qed.

Lemma make_room_same_view A a b n :
  same_view a b ->
  same_view (printbuf_make_room A a n) (printbuf_make_room A b n).
Proof.
  intros Hv. pose proof Hv as (Hb & Hs & Hp & Hh & Hf & Hi & Hn & Hc & Ha).
  unfold printbuf_make_room. rewrite <- Hh, <- Hf, <- Hs, <- Hp, <- Hb.
  destruct (negb (heap_allocated a) || allocation_failure a) eqn:E;
    [exact Hv|].
  apply orb_false_iff in E as [Eh _]. apply negb_false_iff in Eh.
  rewrite <- (Ha Eh).
  destruct (pos a + n + 1 >? size a); [|exact Hv].
  set (new_size := grown_capacity A (size a) (pos a + n + 1)).
  destruct ((pos a + n + 1 <=? new_size) && u32 new_size
            && try_alloc A (negb (atomic a =? 0)) new_size);
    clearbody new_size; unfold same_view; cbn; tauto.
Qed.

Lemma reset_same_view a b :
  same_view a b -> same_view (printbuf_reset a) (printbuf_reset b).
Proof. unfold same_view. cbn. tauto. Qed.

Lemma atomic_same_view a b f :
  same_view a b ->
  same_view (with_atomic a (f (atomic a))) (with_atomic b (f (atomic b))).
Proof.
  unfold same_view. cbn. intros (? & ? & ? & ? & ? & ? & ? & ? & Ha).
  repeat (split; [assumption|]). intros Hh. now rewrite (Ha Hh).
Qed.

Lemma effect_same_view A f a b :
  same_view a b -> same_view (effect A f a) (effect A f b).
Proof.
  intros H. destruct f; cbn [effect];
    repeat match goal with
      | |- same_view (terminate _) (terminate _) => apply terminate_same_view
      | |- same_view (printbuf_make_room _ _ _) (printbuf_make_room _ _ _) =>
          apply make_room_same_view
      | |- same_view (put _ _) (put _ _) => apply put_same_view
      | |- same_view (printbuf_reset _) (printbuf_reset _) =>
          apply reset_same_view
      end;
    try exact H.
  - apply (atomic_same_view a b (fun z => wrap8 (z + 1)) H).
  - apply (atomic_same_view a b (fun z => wrap8 (z - 1)) H).
Qed.

Lemma run_all_same_view A fs : forall a b,
  printbuf_ok a = true -> printbuf_ok b = true ->
  forallb args_ok fs = true -> same_view a b ->
  exists a' b',
    run_all A fs a = Some a' /\ run_all A fs b = Some b' /\ same_view a' b'.
Proof.
  induction fs as [|f fs IH]; intros a b Ha Hb Hfs Hv.
  - now exists a, b.
  - cbn [forallb] in Hfs. apply andb_true_iff in Hfs as [Hf Hfs].
    cbn [run_all]. rewrite (run_effect A f a Ha Hf), (run_effect A f b Hb Hf).
    cbn [mbind option_bind].
    apply IH; [now apply effect_ok | now apply effect_ok | assumption |].
    now apply effect_same_view.
Qed.

Lemma fresh_like_ok out :
  printbuf_ok out = true -> printbuf_ok (fresh_like out) = true.
Proof.
  intros H. destruct (printbuf_ok_elim _ H) as (Hs & Hp & Hl).
  unfold fresh_like. destruct (heap_allocated out); [reflexivity|].
  now apply PRINTBUF_EXTERN_ok.
Qed.

(** C7, as the code has it: on an external buffer, and on a heap buffer of
    capacity zero outside atomic sections, [printbuf_reset] followed by any
    sequence of operations of the header ends in the same storage content,
    cursor, capacity and accessor results as the same sequence on the
    freshly constructed buffer: [PRINTBUF_EXTERN] over the same storage and
    size, or [PRINTBUF]. *)
Theorem reset_reuse_equivalence
  (A : allocator) (fs : list call) (out : printbuf) :
  printbuf_ok out = true -> forallb args_ok fs = true ->
  starts_afresh out = true ->
  exists reused fresh,
    run_all A fs (printbuf_reset out) = Some reused
    /\ run_all A fs (fresh_like out) = Some fresh
    /\ buf reused = buf fresh
    /\ pos reused = pos fresh
    /\ size reused = size fresh
    /\ printbuf_remaining_size reused = printbuf_remaining_size fresh
    /\ printbuf_remaining reused = printbuf_remaining fresh
    /\ printbuf_written reused = printbuf_written fresh
    /\ printbuf_overflowed reused = printbuf_overflowed fresh
    /\ printbuf_text reused = printbuf_text fresh.
Proof.
  intros H Hfs Hheap. destruct (printbuf_ok_elim _ H) as (Hs & Hp & Hl).
  destruct (run_all_same_view A fs (printbuf_reset out) (fresh_like out))
    as (reused & fresh & Hr & Hf & Hv);
    [now apply printbuf_reset_ok | now apply fresh_like_ok | assumption | |].
  - unfold fresh_like, same_view.
    destruct (heap_allocated out) eqn:Eh; cbn; rewrite ?Eh.
    + unfold starts_afresh in Hheap. rewrite Eh in Hheap. cbn in Hheap.
      apply andb_true_iff in Hheap as [Hz Ha].
      apply Z.eqb_eq in Hz, Ha.
      assert (buf out = []) as -> by (apply length_zero_iff_nil; lia).
      rewrite Hz, Ha. tauto.
    + intuition congruence.
  - exists reused, fresh.
    pose proof (same_view_accessors _ _ Hv). unfold same_view in Hv. tauto.
Qed.

Lemma reset_reuse_equivalence_witness :
  exists reused fresh,
    run_all generous
      [Call_prt_str (bytes_of "second use"); Call_prt_hex_byte 10]
      (printbuf_reset
         (mk_printbuf (bytes_of "first") 5 9 3 4 2 1 false false
            PRINTBUF_UNITS_10 true true false 1 1 [8; 0; 0; 0]))
    = Some reused
    /\ run_all generous
         [Call_prt_str (bytes_of "second use"); Call_prt_hex_byte 10]
         (PRINTBUF_EXTERN (bytes_of "first") 5)
       = Some fresh
    /\ buf reused = buf fresh /\ pos reused = pos fresh.
Proof.
  destruct (reset_reuse_equivalence generous
              [Call_prt_str (bytes_of "second use"); Call_prt_hex_byte 10]
              (mk_printbuf (bytes_of "first") 5 9 3 4 2 1 false false
                 PRINTBUF_UNITS_10 true true false 1 1 [8; 0; 0; 0])
              eq_refl eq_refl eq_refl)
    as (reused & fresh & Hr & Hf & Hb & Hp & _).
  exists reused, fresh. repeat split; assumption.
Defined.

(** C7, as the spec has it, fails on a heap buffer that has grown: after
    the reset it still grows, and the buffer [PRINTBUF_EXTERN] makes over
    the same storage and size truncates. *)
Lemma reset_of_grown_heap_buffer :
  let fs := [Call_prt_str (bytes_of "hello, world")] in
  exists used reused fresh,
    run_all generous [Call_prt_str (bytes_of "abc")] PRINTBUF = Some used
    /\ printbuf_ok used = true
    /\ heap_allocated used = true
    /\ size used = 8
    /\ run_all generous fs (printbuf_reset used) = Some reused
    /\ run_all generous fs (PRINTBUF_EXTERN (buf used) (size used))
       = Some fresh
    /\ printbuf_text reused = bytes_of "hello, world"
    /\ printbuf_text fresh = bytes_of "hello, "
    /\ printbuf_written reused <> printbuf_written fresh
    /\ printbuf_overflowed reused <> printbuf_overflowed fresh.
Proof.
  eexists. eexists. eexists. split; [vm_compute; reflexivity|].
  do 3 (split; [vm_compute; reflexivity|]).
  split; [vm_compute; reflexivity|]. split; [vm_compute; reflexivity|].
  do 2 (split; [vm_compute; reflexivity|]). split; vm_compute; discriminate.
Qed.

(** Inside an atomic section a reset heap buffer of capacity zero asks for
    memory without blocking, a fresh [PRINTBUF] does not: under memory
    pressure only the second grows. *)
Lemma reset_inside_atomic_section :
  let out := printbuf_atomic_inc PRINTBUF in
  let fs := [Call_prt_str (bytes_of "hello")] in
  exists reused fresh,
    run_all pressed fs (printbuf_reset out) = Some reused
    /\ run_all pressed fs PRINTBUF = Some fresh
    /\ allocation_failure reused = true
    /\ printbuf_text reused = []
    /\ allocation_failure fresh = false
    /\ printbuf_text fresh = bytes_of "hello".
Proof.
  eexists. eexists. split; [vm_compute; reflexivity|].
  split; [vm_compute; reflexivity|]. repeat split.
Qed.

(** ** Units formatting *)

(** C9: with human-readable units enabled, 1536 renders as [1.5K] in binary
    mode and 1500000 as [1.5M] in decimal mode, 0 renders as [0] in both
    modes, and the signed variant renders -2048 as [-2.0K] in binary mode;
    the fractional digit is truncated, not rounded: 2047 renders as [1.9K]
    in binary mode and 1999 as [1.9K] in decimal mode. *)
Theorem human_readable_rendering (A : allocator) :
  printbuf_text <$> prt_human_readable_u64 A (units_buf PRINTBUF_UNITS_2) 1536
  = Some (bytes_of "1.5K")
  /\ printbuf_text
       <$> prt_human_readable_u64 A (units_buf PRINTBUF_UNITS_10) 1500000
     = Some (bytes_of "1.5M")
  /\ printbuf_text <$> prt_human_readable_u64 A (units_buf PRINTBUF_UNITS_2) 0
     = Some (bytes_of "0")
  /\ printbuf_text <$> prt_human_readable_u64 A (units_buf PRINTBUF_UNITS_10) 0
     = Some (bytes_of "0")
  /\ printbuf_text
       <$> prt_human_readable_s64 A (units_buf PRINTBUF_UNITS_2) (-2048)
     = Some (bytes_of "-2.0K")
  /\ printbuf_text <$> prt_units_u64 A (units_buf PRINTBUF_UNITS_2) 1536
     = Some (bytes_of "1.5K")
  /\ printbuf_text <$> prt_units_s64 A (units_buf PRINTBUF_UNITS_2) (-2048)
     = Some (bytes_of "-2.0K")
  /\ human_readable_text PRINTBUF_UNITS_2 2047 = bytes_of "1.9K"
  /\ human_readable_text PRINTBUF_UNITS_10 1999 = bytes_of "1.9K".
Proof. repeat split; vm_compute; reflexivity. Qed.

(** * Further properties of the header *)

(** ** The accessors together *)

(** X1: on a buffer with [size > 0], what [printbuf_written] counts and
    what [printbuf_remaining] still offers always add up to [size - 1], the
    bytes before the terminator slot; so [printbuf_written] is at most
    [pos] and below [size]. *)
Theorem written_plus_remaining (out : printbuf) :
  fields_ok out = true -> 0 < size out ->
  printbuf_written out + printbuf_remaining out = size out - 1
  /\ 0 <= printbuf_written out <= pos out
  /\ printbuf_written out < size out.
Proof.
  intros H Hs. pose proof (fields_ok_elim _ H) as (_ & Hp).
  rewrite (printbuf_written_eq _ H), (printbuf_remaining_eq _ H).
  destruct (Z.eqb_spec (size out) 0); lia.
Qed.

Lemma written_plus_remaining_witness :
  printbuf_written (with_pos (PRINTBUF_EXTERN (replicate 8 zero) 8) 3)
  + printbuf_remaining (with_pos (PRINTBUF_EXTERN (replicate 8 zero) 8) 3)
  = 8 - 1.
Proof.
  apply (written_plus_remaining
           (with_pos (PRINTBUF_EXTERN (replicate 8 zero) 8) 3));
    [reflexivity | simpl; lia].
Defined.

(** X2: [printbuf_remaining_size] is 0 exactly when [printbuf_overflowed]
    holds; otherwise it is [size - pos], one more than
    [printbuf_remaining], the one byte being the terminator slot. *)
Theorem remaining_size_and_overflow (out : printbuf) :
  fields_ok out = true ->
  (printbuf_overflowed out = true <-> printbuf_remaining_size out = 0)
  /\ (printbuf_overflowed out = false ->
      printbuf_remaining_size out = size out - pos out
      /\ printbuf_remaining_size out = printbuf_remaining out + 1).
Proof.
  intros H. pose proof (fields_ok_elim _ H) as (Hs & Hp).
  rewrite (printbuf_remaining_eq _ H).
  unfold printbuf_overflowed, printbuf_remaining_size.
  rewrite Z.geb_leb.
  destruct (Z.ltb_spec (pos out) (size out)),
    (Z.leb_spec (size out) (pos out)); try lia;
    rewrite ?sub32_small by lia; repeat split; intros; try lia;
    discriminate.
Qed.

Lemma remaining_size_and_overflow_witness :
  printbuf_overflowed (with_pos (PRINTBUF_EXTERN (replicate 8 zero) 8) 9)
  = true
  <-> printbuf_remaining_size
        (with_pos (PRINTBUF_EXTERN (replicate 8 zero) 8) 9) = 0.
Proof.
  apply (remaining_size_and_overflow
           (with_pos (PRINTBUF_EXTERN (replicate 8 zero) 8) 9)).
  reflexivity.
Defined.

(** X3: after [printbuf_reset] the whole capacity is on offer again: nothing
    counts as written, [printbuf_remaining_size] is [size], the buffer is
    overflowed only if its capacity is zero; the storage is not touched, no
    nul is stored, and a second reset changes nothing. *)
Theorem reset_offers_the_capacity (b : printbuf) :
  fields_ok b = true ->
  printbuf_written (printbuf_reset b) = 0
  /\ printbuf_text (printbuf_reset b) = []
  /\ printbuf_remaining_size (printbuf_reset b) = size b
  /\ printbuf_remaining (printbuf_reset b) = Z.max 0 (size b - 1)
  /\ (printbuf_overflowed (printbuf_reset b) = true <-> size b = 0)
  /\ buf (printbuf_reset b) = buf b
  /\ printbuf_reset (printbuf_reset b) = printbuf_reset b.
Proof.
  intros H. pose proof (fields_ok_elim _ H) as (Hs & Hp).
  assert (Hw : printbuf_written (printbuf_reset b) = 0).
  { unfold printbuf_written. cbn. destruct (Z.eqb_spec (size b) 0); cbn;
      [reflexivity|]. rewrite sub32_small by lia. lia. }
  split; [exact Hw|]. split; [unfold printbuf_text; now rewrite Hw|].
  unfold printbuf_remaining_size, printbuf_remaining, printbuf_overflowed.
  cbn. rewrite Z.geb_leb.
  destruct (Z.ltb_spec 0 (size b)), (Z.leb_spec (size b) 0); try lia;
    rewrite ?Z.sub_0_r, ?(sub32_small (size b) 0), ?sub32_small by lia;
    repeat split; intros; try lia; discriminate.
Qed.

Lemma reset_offers_the_capacity_witness :
  printbuf_remaining_size
    (printbuf_reset (with_pos (PRINTBUF_EXTERN (replicate 8 zero) 8) 11))
  = 8.
Proof.
  apply (reset_offers_the_capacity
           (with_pos (PRINTBUF_EXTERN (replicate 8 zero) 8) 11)).
  reflexivity.
Defined.

(** ** The atomic counter *)

Lemma wrap8_small z : 0 <= z < 2 ^ 8 -> wrap8 z = z.
Proof. intros H. unfold wrap8. now apply Z.mod_small. Qed.

Lemma fields_ok_atomic b : fields_ok b = true -> 0 <= atomic b < 2 ^ 8.
Proof.
  unfold fields_ok. rewrite !andb_true_iff, !u8_true. tauto.
Qed.

(** X4: entering and leaving an atomic section cancel out, in either
    order: [printbuf_atomic_dec] undoes [printbuf_atomic_inc] and the other
    way round, also across the wrap of the [u8] counter. *)
Theorem atomic_inc_dec_cancel (b : printbuf) :
  fields_ok b = true ->
  printbuf_atomic_dec (printbuf_atomic_inc b) = b
  /\ printbuf_atomic_inc (printbuf_atomic_dec b) = b.
Proof.
  intros H. pose proof (fields_ok_atomic _ H) as Ha.
  unfold printbuf_atomic_dec, printbuf_atomic_inc, with_atomic, wrap8.
  destruct b; cbn in *. split; f_equal.
  - rewrite Zminus_mod_idemp_l.
    replace (atomic0 + 1 - 1) with atomic0 by lia. now apply Z.mod_small.
  - rewrite Zplus_mod_idemp_l.
    replace (atomic0 - 1 + 1) with atomic0 by lia. now apply Z.mod_small.
Qed.

Lemma atomic_inc_dec_cancel_witness :
  printbuf_atomic_inc (printbuf_atomic_dec PRINTBUF) = PRINTBUF.
Proof. apply (atomic_inc_dec_cancel PRINTBUF). reflexivity. Defined.

Lemma atomic_iter_inc n b :
  0 <= atomic b < 2 ^ 8 ->
  atomic (Nat.iter n printbuf_atomic_inc b) = wrap8 (atomic b + Z.of_nat n).
Proof.
  intros Ha. induction n as [|n IH].
  - cbn [Nat.iter]. rewrite Z.add_0_r. symmetry. now apply wrap8_small.
  - change (Nat.iter (S n) printbuf_atomic_inc b)
      with (printbuf_atomic_inc (Nat.iter n printbuf_atomic_inc b)).
    cbn [atomic printbuf_atomic_inc with_atomic].
    rewrite IH. unfold wrap8. rewrite Zplus_mod_idemp_l. f_equal. lia.
Qed.

(** X5: the [u8] counter of nested atomic sections wraps around:
    [n] times [printbuf_atomic_inc] leave [atomic] at
    [(atomic + n) mod 256], so that 256 nested sections leave the buffer as
    it was, non-atomic if it was; and [printbuf_atomic_dec] on a buffer
    outside atomic sections leaves [atomic] at 255. *)
Theorem atomic_counter_wraps (b : printbuf) (n : nat) :
  fields_ok b = true ->
  atomic (Nat.iter n printbuf_atomic_inc b) = (atomic b + Z.of_nat n) mod 256
  /\ atomic (Nat.iter 256 printbuf_atomic_inc b) = atomic b
  /\ (atomic b = 0 -> atomic (printbuf_atomic_dec b) = 255).
Proof.
  intros H. pose proof (fields_ok_atomic _ H) as Ha.
  rewrite !atomic_iter_inc by exact Ha. split; [reflexivity|].
  split.
  - unfold wrap8. change (Z.of_nat 256) with (1 * 2 ^ 8).
    rewrite Z.mod_add by discriminate. now apply Z.mod_small.
  - intros E. cbn. now rewrite E.
Qed.

Lemma atomic_counter_wraps_witness :
  atomic (Nat.iter 256 printbuf_atomic_inc (printbuf_atomic_inc PRINTBUF))
  = 1.
Proof.
  apply (atomic_counter_wraps (printbuf_atomic_inc PRINTBUF) 0).
  reflexivity.
Defined.

(** ** What a write stores and reads *)



(** X7: [prt_bytes] reads no more of [b] than it stores: with [k] the
    smaller of [n] and the room after [printbuf_make_room], it runs without
    a fault as soon as [b] has [k] bytes, shorter than [n] or not, and two
    sources that agree on their first [k] bytes leave the same buffer. *)
Theorem prt_bytes_reads_what_it_stores
  (A : allocator) (out : printbuf) (b b' : list ascii) (n : Z) :
  printbuf_ok out = true -> u32 n = true ->
  Z.min n (printbuf_remaining (printbuf_make_room A out n))
    <= Z.of_nat (length b) ->
  take (Z.to_nat (Z.min n (printbuf_remaining (printbuf_make_room A out n))))
    b
  = take (Z.to_nat (Z.min n (printbuf_remaining (printbuf_make_room A out n))))
      b' ->
  is_Some (prt_bytes A out b n) /\ prt_bytes A out b n = prt_bytes A out b' n.
Proof.
  intros H0 Hn Hb Hbb'. apply u32_true in Hn.
  assert (H := make_room_ok A out n H0).
  unfold prt_bytes. set (out1 := printbuf_make_room A out n) in *.
  destruct (printbuf_ok_elim _ H) as (Hs & Hp & Hl).
  pose proof (printbuf_remaining_eq _ (printbuf_ok_fields _ H)) as Hrem.
  set (k := Z.min n (printbuf_remaining out1)) in *.
  assert (Hb' : k <= Z.of_nat (length b')).
  { apply (f_equal length) in Hbb'. rewrite !length_take in Hbb'. lia. }
  rewrite !bytes_loop_inserts by lia. cbn [mbind option_bind].
  rewrite !drop_0, Hbb'. split; [|reflexivity].
  rewrite printbuf_nul_terminate_eq; [now eexists|].
  updated_from H. rewrite length_inserts. exact Hl.
Qed.

Lemma prt_bytes_reads_what_it_stores_witness :
  prt_bytes generous (with_pos (PRINTBUF_EXTERN (replicate 8 zero) 8) 5)
    (bytes_of "ab") 100
  = prt_bytes generous (with_pos (PRINTBUF_EXTERN (replicate 8 zero) 8) 5)
      (bytes_of "abcdef") 100.
Proof.
  apply (prt_bytes_reads_what_it_stores generous
           (with_pos (PRINTBUF_EXTERN (replicate 8 zero) 8) 5)
           (bytes_of "ab") (bytes_of "abcdef") 100 eq_refl eq_refl);
    [vm_compute; discriminate | reflexivity].
Defined.

(** ** One write in terms of another *)

(** X8: writing one character is the same through every primitive:
    [prt_char(out, c)], [prt_chars(out, c, 1)] and [prt_bytes(out, &c, 1)]
    leave the same buffer, and so do [__prt_char_reserved(out, c)] and
    [__prt_chars_reserved(out, c, 1)]. *)
Theorem one_char_by_any_primitive
  (A : allocator) (out : printbuf) (c : ascii) :
  printbuf_ok out = true ->
  is_Some (prt_char A out c)
  /\ prt_chars A out c 1 = prt_char A out c
  /\ prt_bytes A out [c] 1 = prt_char A out c
  /\ __prt_chars_reserved out c 1 = __prt_char_reserved out c.
Proof.
  intros H.
  pose proof (run_effect A (Call_prt_char c) out H eq_refl) as E1.
  pose proof (run_effect A (Call_prt_chars c 1) out H eq_refl) as E2.
  pose proof (run_effect A (Call_prt_bytes [c] 1) out H eq_refl) as E3.
  pose proof (run_effect A (Call__prt_char_reserved c) out H eq_refl) as E4.
  pose proof (run_effect A (Call__prt_chars_reserved c 1) out H eq_refl)
    as E5.
  cbn [run] in *. rewrite E1, E2, E3, E4, E5.
  split; [now eexists|]. repeat split.
Qed.

Lemma one_char_by_any_primitive_witness :
  prt_chars generous PRINTBUF "a" 1 = prt_char generous PRINTBUF "a".
Proof.
  apply (one_char_by_any_primitive generous PRINTBUF "a"). reflexivity.
Defined.

Lemma strlen_no_nul s : no_nul s = true -> strlen s = Z.of_nat (length s).
Proof.
  induction s as [|c s IH]; cbn [no_nul forallb strlen length];
    [reflexivity|].
  rewrite andb_true_iff, negb_true_iff. intros [Hc Hs].
  rewrite Hc, (IH Hs). lia.
Qed.

Lemma strlen_app_nul s t :
  no_nul s = true -> strlen (s ++ zero :: t) = Z.of_nat (length s).
Proof.
  induction s as [|c s IH]; cbn [no_nul forallb strlen length app].
  - intros _. now rewrite Ascii.eqb_refl.
  - rewrite andb_true_iff, negb_true_iff. intros [Hc Hs].
    rewrite Hc, (IH Hs). lia.
Qed.

(** X9: [prt_str] stops at the first nul byte: whatever follows it in
    memory, the string [s] is written, and the buffer is left as by
    [prt_bytes] with the bytes of [s] and their number. *)
Theorem prt_str_stops_at_nul
  (A : allocator) (out : printbuf) (s t : list ascii) :
  printbuf_ok out = true -> no_nul s = true ->
  Z.of_nat (length s) < 2 ^ 32 ->
  is_Some (prt_str A out s)
  /\ prt_str A out (s ++ zero :: t) = prt_str A out s
  /\ prt_str A out s = prt_bytes A out s (Z.of_nat (length s)).
Proof.
  intros H Hs Hfit. unfold prt_str.
  rewrite (strlen_app_nul s t Hs), (strlen_no_nul s Hs).
  rewrite wrap32_small by lia.
  assert (Hn : u32 (Z.of_nat (length s)) = true) by (apply u32_true; lia).
  rewrite (prt_bytes_eq A out (s ++ zero :: t)), (prt_bytes_eq A out s);
    try assumption; rewrite ?length_app; try lia.
  rewrite Nat2Z.id, take_app_length, (take_ge s (length s)) by lia.
  split; [now eexists|]. split; reflexivity.
Qed.

Lemma prt_str_stops_at_nul_witness :
  prt_str generous PRINTBUF (bytes_of "ab" ++ zero :: bytes_of "junk")
  = prt_str generous PRINTBUF (bytes_of "ab").
Proof.
  apply (prt_str_stops_at_nul generous PRINTBUF (bytes_of "ab")
           (bytes_of "junk") eq_refl eq_refl eq_refl).
Defined.

(** ** What is written stays *)

Lemma keeps_text_trans a b c :
  keeps_text a b -> keeps_text b c -> keeps_text a c.
Proof.
  intros (Hs1 & Hp1 & Hb1) (Hs2 & Hp2 & Hb2).
  split; [lia|]. split; [lia|]. intros i Hi.
  rewrite Hb2 by lia. now apply Hb1.
Qed.

Lemma make_room_keeps_text A out n :
  printbuf_ok out = true -> keeps_text out (printbuf_make_room A out n).
Proof.
  intros H. destruct (printbuf_ok_elim _ H) as (Hs & Hp & Hl).
  destruct (make_room_spec A out n H) as (_ & Hpos & Hsize & _).
  split; [exact Hsize|]. split; [lia|]. intros i Hi.
  transitivity
    (take (length (buf out)) (buf (printbuf_make_room A out n)) !! i);
    [symmetry; apply lookup_take_lt; lia | now rewrite make_room_keeps].
Qed.

Lemma put_keeps_text out l :
  printbuf_ok out = true -> pos out + Z.of_nat (length l) < 2 ^ 32 ->
  keeps_text out (put out l).
Proof.
  intros H Hfit. destruct (printbuf_ok_elim _ H) as (Hs & Hp & Hl).
  split; [reflexivity|]. split; [rewrite pos_put by lia; lia|].
  intros i Hi. cbn [buf put with_pos with_buf].
  apply list_lookup_inserts_lt. lia.
Qed.

Lemma terminate_keeps_text out : keeps_text out (terminate out).
Proof.
  split; [now rewrite size_terminate|].
  split; [now rewrite pos_terminate|]. intros i Hi.
  unfold terminate. destruct (size out =? 0); [reflexivity|].
  cbn [buf with_buf]. apply list_lookup_insert_ne. lia.
Qed.

Lemma write_keeps_text A out n l :
  printbuf_ok out = true -> pos out + Z.of_nat (length l) < 2 ^ 32 ->
  keeps_text out
    (terminate (printbuf_make_room A (put (printbuf_make_room A out n) l) 1)).
Proof.
  intros H Hfit. pose proof (make_room_ok A out n H) as H1.
  pose proof (put_ok _ l H1) as H2.
  apply (keeps_text_trans _ (printbuf_make_room A out n));
    [now apply make_room_keeps_text|].
  apply (keeps_text_trans _ (put (printbuf_make_room A out n) l));
    [apply put_keeps_text; [exact H1 | now rewrite pos_make_room]|].
  apply (keeps_text_trans _
           (printbuf_make_room A (put (printbuf_make_room A out n) l) 1));
    [now apply make_room_keeps_text|].
  apply terminate_keeps_text.
Qed.

Lemma hex_keeps_text A out hi lo :
  printbuf_ok out = true -> pos out + 2 < 2 ^ 32 ->
  keeps_text out
    (terminate
       (printbuf_make_room A (put (put (printbuf_make_room A out 2) [hi]) [lo])
          1)).
Proof.
  intros H Hfit. destruct (printbuf_ok_elim _ H) as (Hs & Hp & Hl).
  pose proof (make_room_ok A out 2 H) as H1.
  pose proof (put_ok _ [hi] H1) as H2.
  pose proof (put_ok _ [lo] H2) as H3.
  assert (E : pos (put (printbuf_make_room A out 2) [hi]) = pos out + 1)
    by (rewrite pos_put; rewrite pos_make_room; cbn [length]; lia).
  set (r := printbuf_make_room A out 2) in *.
  apply (keeps_text_trans _ r); [now apply make_room_keeps_text|].
  apply (keeps_text_trans _ (put r [hi]));
    [apply put_keeps_text;
     [exact H1 | unfold r; rewrite pos_make_room; cbn [length]; lia]|].
  apply (keeps_text_trans _ (put (put r [hi]) [lo]));
    [apply put_keeps_text; [exact H2 | rewrite E; cbn [length]; lia]|].
  apply (keeps_text_trans _ (printbuf_make_room A (put (put r [hi]) [lo]) 1));
    [now apply make_room_keeps_text|].
  apply terminate_keeps_text.
Qed.

Lemma effect_keeps_text A f out :
  printbuf_ok out = true -> args_ok f = true -> is_write f = true ->
  pos out + requested_len f < 2 ^ 32 ->
  keeps_text out (effect A f out).
Proof.
  intros H Ha Hw Hfit. destruct (printbuf_ok_elim _ H) as (Hs & Hp & Hl).
  pose proof (length_requested f Ha) as Hlen.
  pose proof (requested_len_nonneg f Ha) as Hn.
  destruct f; try discriminate Hw; cbn [effect requested requested_len] in *.
  - apply put_keeps_text; [exact H | lia].
  - apply (keeps_text_trans _ (printbuf_make_room A out 1));
      [now apply make_room_keeps_text|].
    apply put_keeps_text;
      [now apply make_room_ok | rewrite pos_make_room; lia].
  - apply write_keeps_text; [exact H | lia].
  - apply put_keeps_text; [exact H | lia].
  - apply write_keeps_text; [exact H | lia].
  - apply write_keeps_text; [exact H | lia].
  - rewrite (wrap32_small (strlen str)) by lia.
    apply write_keeps_text; [exact H | lia].
  - now apply hex_keeps_text.
  - now apply hex_keeps_text.
  - apply (keeps_text_trans _ (printbuf_make_room A out 1));
      [now apply make_room_keeps_text|].
    apply terminate_keeps_text.
Qed.

Lemma keeps_text_written a b :
  fields_ok a = true -> fields_ok b = true -> keeps_text a b ->
  printbuf_written a <= printbuf_written b
  /\ take (Z.to_nat (printbuf_written a)) (buf b) = printbuf_text a.
Proof.
  intros Ha Hb (Hs & Hp & Hbytes).
  pose proof (fields_ok_elim _ Ha) as (Hsa & Hpa).
  unfold printbuf_text.
  rewrite (printbuf_written_eq _ Ha), (printbuf_written_eq _ Hb).
  destruct (Z.eqb_spec (size a) 0) as [E|E].
  - split; [destruct (Z.eqb_spec (size b) 0); lia | reflexivity].
  - split; [destruct (Z.eqb_spec (size b) 0); lia|].
    apply list_eq. intros i. rewrite !lookup_take.
    destruct (decide (i < Z.to_nat (Z.min (pos a) (size a - 1)))%nat);
      [|reflexivity].
    apply Hbytes. lia.
Qed.

(** X10: a write never alters what was written before it: as long as the
    cursor does not wrap, after any reserved or public write and after
    [printbuf_nul_terminate] the text so far is still there, at the start of
    the storage, and [printbuf_written] has not gone down. *)
Theorem written_text_is_kept (A : allocator) (f : call) (out : printbuf) :
  printbuf_ok out = true -> args_ok f = true -> is_write f = true ->
  pos out + requested_len f < 2 ^ 32 ->
  exists out',
    run A f out = Some out'
    /\ printbuf_written out <= printbuf_written out'
    /\ take (Z.to_nat (printbuf_written out)) (buf out') = printbuf_text out
    /\ take (Z.to_nat (printbuf_written out)) (printbuf_text out')
       = printbuf_text out.
Proof.
  intros H Ha Hw Hfit. exists (effect A f out).
  split; [now apply run_effect|].
  destruct (keeps_text_written out (effect A f out)) as [Hle Htake];
    [now apply printbuf_ok_fields
    | now apply printbuf_ok_fields, effect_ok
    | now apply effect_keeps_text |].
  split; [exact Hle|]. split; [exact Htake|].
  unfold printbuf_text at 1. rewrite take_take.
  replace (Nat.min (Z.to_nat (printbuf_written out))
             (Z.to_nat (printbuf_written (effect A f out))))
    with (Z.to_nat (printbuf_written out)) by lia.
  exact Htake.
Qed.

Lemma written_text_is_kept_witness :
  exists out',
    run generous (Call_prt_str (bytes_of "world"))
      (with_pos (PRINTBUF_EXTERN (bytes_of "hello, xxxxxxxxx") 16) 7)
    = Some out'
    /\ take 7 (buf out') = bytes_of "hello, ".
Proof.
  destruct (written_text_is_kept generous (Call_prt_str (bytes_of "world"))
              (with_pos (PRINTBUF_EXTERN (bytes_of "hello, xxxxxxxxx") 16) 7)
              eq_refl eq_refl eq_refl eq_refl)
    as (out' & Hrun & _ & Htake & _).
  exists out'. split; [exact Hrun | exact Htake].
Defined.

(** ** Writes on an external buffer, one after the other *)

Lemma with_pos_buf_eq out b b' p p' :
  b = b' -> p = p' ->
  with_pos (with_buf out b) p = with_pos (with_buf out b') p'.
Proof. now intros -> ->. Qed.

Lemma put_put out l1 l2 :
  printbuf_ok out = true -> pos out + Z.of_nat (length l1) < 2 ^ 32 ->
  put (put out l1) l2 = put out (l1 ++ l2).
Proof.
  intros H Hfit. destruct (printbuf_ok_elim _ H) as (Hs & Hp & Hl).
  pose proof (put_ok out l1 H) as H1.
  assert (Er : printbuf_remaining (put out l1)
               = Z.max 0 (size out - (pos out + Z.of_nat (length l1)) - 1)).
  { rewrite (printbuf_remaining_eq _ (printbuf_ok_fields _ H1)).
    rewrite pos_put by lia. reflexivity. }
  assert (Ep : pos (put out l1) = pos out + Z.of_nat (length l1))
    by (apply pos_put; lia).
  transitivity
    (with_pos
       (with_buf out
          (list_inserts (Z.to_nat (pos (put out l1)))
             (take (Z.to_nat (printbuf_remaining (put out l1))) l2)
             (buf (put out l1))))
       (add32 (pos (put out l1)) (Z.of_nat (length l2)))); [reflexivity|].
  rewrite Er, Ep. unfold put. cbn [buf with_pos with_buf].
  rewrite (printbuf_remaining_eq _ (printbuf_ok_fields _ H)).
  apply with_pos_buf_eq.
  - set (r := Z.to_nat (Z.max 0 (size out - pos out - 1))).
    destruct (le_lt_dec (length l1) r) as [Hle|Hgt].
    + rewrite (take_ge l1) by lia. rewrite take_app, (take_ge l1) by lia.
      rewrite list_inserts_app_l. f_equal; [lia | f_equal; lia].
    + rewrite take_app_le by lia.
      replace (Z.to_nat
                 (Z.max 0 (size out - (pos out + Z.of_nat (length l1)) - 1)))
        with 0%nat by lia.
      now rewrite take_0.
  - rewrite length_app, Nat2Z.inj_add. unfold add32. f_equal. lia.
Qed.

Lemma inserts_over_insert (p : nat) (k buf : list ascii) (z : ascii) :
  k <> [] -> list_inserts p k (<[p:=z]> buf) = list_inserts p k buf.
Proof.
  destruct k as [|y k]; [congruence|]. intros _. cbn [list_inserts].
  rewrite <- list_insert_inserts_lt by lia.
  apply list_insert_insert_eq.
Qed.

Lemma terminate_put_terminate out l :
  printbuf_ok out = true -> pos out + Z.of_nat (length l) < 2 ^ 32 ->
  terminate (put (terminate out) l) = terminate (put out l).
Proof.
  intros H Hfit. destruct (printbuf_ok_elim _ H) as (Hs & Hp & Hl).
  unfold terminate at 2. destruct (Z.eqb_spec (size out) 0) as [E|E];
    [reflexivity|].
  unfold terminate. cbn [size put with_pos with_buf].
  destruct (Z.eqb_spec (size out) 0) as [|_]; [contradiction|].
  unfold put, printbuf_remaining.
  cbn [buf pos size with_pos with_buf]. f_equal.
  fold (printbuf_remaining out).
  rewrite (printbuf_remaining_eq _ (printbuf_ok_fields _ H)).
  rewrite add32_small by lia.
  destruct (Z_lt_le_dec (pos out) (size out - 1)) as [Hroom|Hfull].
  - destruct l as [|c l].
    + rewrite take_nil. cbn [list_inserts length]. rewrite Z.add_0_r.
      apply list_insert_insert_eq.
    + rewrite (Z.min_l (pos out)) by lia.
      rewrite inserts_over_insert; [reflexivity|].
      destruct (Z.to_nat (Z.max 0 (size out - pos out - 1))) eqn:E';
        [lia | discriminate].
  - replace (Z.to_nat (Z.max 0 (size out - pos out - 1))) with 0%nat by lia.
    rewrite take_0. cbn [list_inserts].
    rewrite !Z.min_r by lia. apply list_insert_insert_eq.
Qed.

(** On an external buffer a public write is the bytes it requests and the
    terminator. *)
Lemma extern_public_write A f out :
  printbuf_ok out = true -> heap_allocated out = false ->
  is_public_write f = true -> args_ok f = true ->
  pos out + requested_len f < 2 ^ 32 ->
  effect A f out = terminate (put out (requested f)).
Proof.
  intros H Hh Hf Ha Hfit. destruct (printbuf_ok_elim _ H) as (Hs & Hp & Hl).
  pose proof (requested_len_nonneg f Ha) as Hn.
  destruct f; try discriminate Hf; cbn [effect requested requested_len] in *;
    rewrite ?(wrap32_small (strlen str)) by lia;
    rewrite (make_room_extern A out) by exact Hh;
    rewrite make_room_extern by exact Hh;
    try reflexivity.
  - now rewrite put_put by (cbn [length]; assumption || lia).
  - now rewrite put_put by (cbn [length]; assumption || lia).
Qed.

Lemma heap_allocated_make_room A out n :
  heap_allocated (printbuf_make_room A out n) = heap_allocated out.
Proof.
  unfold printbuf_make_room.
  repeat match goal with |- context [if ?b then _ else _] => destruct b end;
    reflexivity.
Qed.

Lemma heap_allocated_terminate out :
  heap_allocated (terminate out) = heap_allocated out.
Proof. unfold terminate. now destruct (size out =? 0). Qed.

Lemma heap_allocated_effect A f out :
  heap_allocated (effect A f out) = heap_allocated out.
Proof.
  destruct f; cbn [effect];
    rewrite ?heap_allocated_terminate, ?heap_allocated_make_room;
    cbn [heap_allocated put with_pos with_buf];
    rewrite ?heap_allocated_make_room; reflexivity.
Qed.

(** X11: on an external buffer writes compose: as long as the cursor does
    not wrap, two public writes in a row leave the buffer, terminator and
    cursor included, exactly as the one public write of the two requests
    joined; so a string may be written in pieces, a hex byte as two
    characters, [n + m] characters as [n] and then [m]. *)
Theorem writes_compose (A : allocator) (f g h : call) (out : printbuf) :
  printbuf_ok out = true -> heap_allocated out = false ->
  is_public_write f && is_public_write g && is_public_write h = true ->
  args_ok f && args_ok g && args_ok h = true ->
  requested h = requested f ++ requested g ->
  pos out + requested_len h < 2 ^ 32 ->
  exists out',
    run_all A [f; g] out = Some out' /\ run A h out = Some out'.
Proof.
  intros H Hh Hp Ha Hreq Hfit.
  destruct (printbuf_ok_elim _ H) as (Hs & Hpos & Hl).
  rewrite !andb_true_iff in Hp, Ha.
  destruct Hp as ((Hpf & Hpg) & Hph), Ha as ((Haf & Hag) & Hah).
  pose proof (requested_len_nonneg f Haf) as Hnf.
  pose proof (requested_len_nonneg g Hag) as Hng.
  assert (Hlen : requested_len h = requested_len f + requested_len g).
  { rewrite <- !length_requested by assumption.
    rewrite Hreq, length_app. lia. }
  exists (effect A h out). split; [|now apply run_effect].
  cbn [run_all]. rewrite (run_effect A f out H Haf). cbn [mbind option_bind].
  rewrite run_effect by (assumption || now apply effect_ok).
  cbn [mbind option_bind]. f_equal.
  rewrite (extern_public_write A f out), (extern_public_write A h out)
    by (assumption || lia).
  pose proof (put_ok out (requested f) H) as Hput.
  assert (Epos : pos (put out (requested f)) = pos out + requested_len f)
    by (rewrite pos_put; rewrite ?(length_requested f Haf); lia).
  rewrite extern_public_write;
    [| now apply terminate_ok
     | now rewrite heap_allocated_terminate
     | assumption | assumption
     | rewrite pos_terminate, Epos; lia ].
  rewrite terminate_put_terminate
    by (assumption || (rewrite Epos, (length_requested g Hag); lia)).
  rewrite put_put by (assumption || (rewrite (length_requested f Haf); lia)).
  now rewrite Hreq.
Qed.

Lemma writes_compose_witness :
  exists out',
    run_all generous [Call_prt_str (bytes_of "hello, "); Call_prt_chars "!" 3]
      (PRINTBUF_EXTERN (replicate 8 "x"%char) 8) = Some out'
    /\ run generous (Call_prt_bytes (bytes_of "hello, !!!") 10)
         (PRINTBUF_EXTERN (replicate 8 "x"%char) 8) = Some out'.
Proof.
  apply (writes_compose generous (Call_prt_str (bytes_of "hello, "))
           (Call_prt_chars "!" 3) (Call_prt_bytes (bytes_of "hello, !!!") 10)
           (PRINTBUF_EXTERN (replicate 8 "x"%char) 8)
           eq_refl eq_refl eq_refl eq_refl eq_refl eq_refl).
Defined.

Lemma put_nil out : printbuf_ok out = true -> put out [] = out.
Proof.
  intros H. destruct (printbuf_ok_elim _ H) as (Hs & Hp & Hl).
  unfold put. rewrite take_nil. cbn [list_inserts length].
  rewrite add32_small, Z.add_0_r by lia. destruct out; reflexivity.
Qed.

(** X12: on an external buffer a public write of nothing,
    [prt_chars(out, c, 0)], [prt_bytes(out, b, 0)] or [prt_str] of the empty
    string, does what [printbuf_nul_terminate] does and no more. *)
Theorem empty_write_only_terminates
  (A : allocator) (f : call) (out : printbuf) :
  printbuf_ok out = true -> heap_allocated out = false ->
  is_public_write f = true -> args_ok f = true -> requested f = [] ->
  is_Some (run A f out)
  /\ run A f out = printbuf_nul_terminate A out
  /\ (pos <$> run A f out) = Some (pos out).
Proof.
  intros H Hh Hp Ha Hreq. destruct (printbuf_ok_elim _ H) as (Hs & Hpos & Hl).
  assert (Hlen : requested_len f = 0)
    by (rewrite <- length_requested by assumption; now rewrite Hreq).
  rewrite (run_effect A f out H Ha), (printbuf_nul_terminate_eq A out H).
  rewrite extern_public_write by (assumption || lia).
  rewrite Hreq, (put_nil out H), (make_room_extern A out 1 Hh).
  split; [now eexists|]. split; [reflexivity|].
  cbn. now rewrite pos_terminate.
Qed.

Lemma empty_write_only_terminates_witness :
  run generous (Call_prt_str (zero :: bytes_of "not read"))
    (with_pos (PRINTBUF_EXTERN (replicate 8 "x"%char) 8) 3)
  = printbuf_nul_terminate generous
      (with_pos (PRINTBUF_EXTERN (replicate 8 "x"%char) 8) 3).
Proof.
  apply (empty_write_only_terminates generous
           (Call_prt_str (zero :: bytes_of "not read"))
           (with_pos (PRINTBUF_EXTERN (replicate 8 "x"%char) 8) 3)
           eq_refl eq_refl eq_refl eq_refl eq_refl).
Defined.

Lemma terminate_terminate out : terminate (terminate out) = terminate out.
Proof.
  unfold terminate at 2. destruct (Z.eqb_spec (size out) 0) as [E|E].
  - unfold terminate. now rewrite (proj2 (Z.eqb_eq _ _) E).
  - unfold terminate. cbn [size pos buf with_buf].
    rewrite (proj2 (Z.eqb_neq _ _) E). f_equal. apply list_insert_insert_eq.
Qed.

Lemma ends_terminated_shape A f out :
  printbuf_ok out = true -> ends_terminated f = true ->
  exists mid, printbuf_ok mid = true /\ effect A f out = terminate mid.
Proof.
  intros H Hf.
  destruct (is_public_write f) eqn:Hp.
  - destruct (public_write_shape A f out H Hp) as (mid & Hmid & _ & ->).
    exists (printbuf_make_room A mid 1).
    split; [now apply make_room_ok | reflexivity].
  - destruct f; try discriminate Hf; try discriminate Hp.
    exists (printbuf_make_room A out 1).
    split; [now apply make_room_ok | reflexivity].
Qed.

(** X13: on an external buffer [printbuf_nul_terminate] is idempotent, and
    after a public write it changes nothing: the write has stored the
    terminator already. *)
Theorem nul_terminate_again (A : allocator) (f : call) (out : printbuf) :
  printbuf_ok out = true -> heap_allocated out = false ->
  ends_terminated f = true -> args_ok f = true ->
  is_Some (run A f out)
  /\ run_all A [f; Call_printbuf_nul_terminate] out = run A f out.
Proof.
  intros H Hh Hf Ha. rewrite (run_effect A f out H Ha).
  split; [now eexists|]. cbn [run_all].
  rewrite (run_effect A f out H Ha). cbn [mbind option_bind run].
  pose proof (effect_ok A f out H) as Hok.
  pose proof (heap_allocated_effect A f out) as Hheap. rewrite Hh in Hheap.
  rewrite (printbuf_nul_terminate_eq A _ Hok).
  rewrite (make_room_extern A _ 1 Hheap).
  destruct (ends_terminated_shape A f out H Hf) as (mid & _ & ->).
  now rewrite terminate_terminate.
Qed.

Lemma nul_terminate_again_witness :
  run_all generous
    [Call_prt_str (bytes_of "hello world"); Call_printbuf_nul_terminate]
    (PRINTBUF_EXTERN (replicate 8 "x"%char) 8)
  = run generous (Call_prt_str (bytes_of "hello world"))
      (PRINTBUF_EXTERN (replicate 8 "x"%char) 8).
Proof.
  apply (nul_terminate_again generous (Call_prt_str (bytes_of "hello world"))
           (PRINTBUF_EXTERN (replicate 8 "x"%char) 8)
           eq_refl eq_refl eq_refl eq_refl).
Defined.

(** ** Full buffers and buffers of no capacity *)

Lemma put_no_room out l :
  printbuf_ok out = true -> size out - 1 <= pos out ->
  put out l = with_pos out (add32 (pos out) (Z.of_nat (length l))).
Proof.
  intros H Hfull. destruct (printbuf_ok_elim _ H) as (Hs & Hp & Hl).
  unfold put. rewrite (printbuf_remaining_eq _ (printbuf_ok_fields _ H)).
  replace (Z.to_nat (Z.max 0 (size out - pos out - 1))) with 0%nat by lia.
  rewrite take_0. cbn [list_inserts]. destruct out; reflexivity.
Qed.

(** X14: once an external buffer is full, [pos >= size - 1], a public write
    stores no byte of its request: as long as the cursor does not wrap, the
    text and [printbuf_written] stay as they are, the cursor alone
    advances, by the requested length. *)
Theorem full_buffer_keeps_its_text
  (A : allocator) (f : call) (out : printbuf) :
  printbuf_ok out = true -> heap_allocated out = false ->
  0 < size out -> size out - 1 <= pos out ->
  is_public_write f = true -> args_ok f = true ->
  pos out + requested_len f < 2 ^ 32 ->
  exists out',
    run A f out = Some out'
    /\ printbuf_text out' = printbuf_text out
    /\ printbuf_written out' = printbuf_written out
    /\ pos out' = pos out + requested_len f.
Proof.
  intros H Hh Hs0 Hfull Hp Ha Hfit.
  destruct (printbuf_ok_elim _ H) as (Hs & Hpos & Hl).
  pose proof (requested_len_nonneg f Ha) as Hn.
  exists (effect A f out). split; [now apply run_effect|].
  pose proof (effect_ok A f out H) as Hok.
  assert (Hw : is_write f = true)
    by (destruct f; try discriminate Hp; reflexivity).
  destruct (keeps_text_written out (effect A f out)) as [_ Htake];
    [now apply printbuf_ok_fields | now apply printbuf_ok_fields
    | now apply effect_keeps_text |].
  assert (Epos : pos (effect A f out) = pos out + requested_len f).
  { apply pos_effect; try assumption; [|lia].
    destruct f; try discriminate Hp; reflexivity. }
  assert (Esize : size (effect A f out) = size out).
  { rewrite extern_public_write by assumption.
    now rewrite size_terminate. }
  assert (Ew : printbuf_written (effect A f out) = printbuf_written out).
  { rewrite (printbuf_written_eq _ (printbuf_ok_fields _ Hok)).
    rewrite (printbuf_written_eq _ (printbuf_ok_fields _ H)).
    rewrite Esize, Epos. destruct (size out =? 0); lia. }
  split; [|split; [exact Ew | exact Epos]].
  unfold printbuf_text at 1. now rewrite Ew.
Qed.

Lemma full_buffer_keeps_its_text_witness :
  exists out',
    run generous (Call_prt_str (bytes_of "more"))
      (with_pos (PRINTBUF_EXTERN (bytes_of "hello, w") 8) 11) = Some out'
    /\ printbuf_text out' = bytes_of "hello, ".
Proof.
  destruct (full_buffer_keeps_its_text generous
              (Call_prt_str (bytes_of "more"))
              (with_pos (PRINTBUF_EXTERN (bytes_of "hello, w") 8) 11)
              eq_refl eq_refl eq_refl) as (out' & Hrun & Htext & _);
    [vm_compute; discriminate | reflexivity | reflexivity | reflexivity |].
  exists out'. split; [exact Hrun | exact Htext].
Defined.

Lemma terminate_zero_capacity out : size out = 0 -> terminate out = out.
Proof. intros E. unfold terminate. now rewrite E. Qed.

Lemma with_pos_ok out p :
  printbuf_ok out = true -> 0 <= p < 2 ^ 32 ->
  printbuf_ok (with_pos out p) = true.
Proof.
  intros H Hp. destruct (printbuf_ok_elim _ H) as (Hs & _ & Hl).
  updated_from H. exact Hl.
Qed.

Lemma effect_zero_capacity A f out :
  printbuf_ok out = true -> heap_allocated out = false -> size out = 0 ->
  is_write f = true -> args_ok f = true ->
  pos out + requested_len f < 2 ^ 32 ->
  effect A f out = with_pos out (pos out + requested_len f).
Proof.
  intros H Hh Hz Hw Ha Hfit. destruct (printbuf_ok_elim _ H) as (Hs & Hp & Hl).
  pose proof (length_requested f Ha) as Hlen.
  pose proof (requested_len_nonneg f Ha) as Hn.
  assert (Hput : forall l,
             Z.of_nat (length l) = requested_len f ->
             put out l = with_pos out (pos out + requested_len f)).
  { intros l El. rewrite put_no_room by (assumption || lia).
    rewrite El, add32_small by lia. reflexivity. }
  destruct f; try discriminate Hw; cbn [effect requested requested_len] in *;
    rewrite ?(wrap32_small (strlen str)) by lia;
    rewrite ?(make_room_extern A out) by exact Hh;
    rewrite ?Hput by assumption;
    rewrite ?make_room_extern by exact Hh;
    rewrite ?terminate_zero_capacity by exact Hz;
    try reflexivity.
  - rewrite (put_no_room out) by (assumption || lia).
    cbn [length]. rewrite add32_small by lia.
    rewrite put_no_room;
      [| apply with_pos_ok; [assumption | lia] | cbn [size pos with_pos]; lia ].
    cbn [pos with_pos length]. rewrite add32_small by lia.
    unfold with_pos. cbn. f_equal. lia.
  - rewrite (put_no_room out) by (assumption || lia).
    cbn [length]. rewrite add32_small by lia.
    rewrite put_no_room;
      [| apply with_pos_ok; [assumption | lia] | cbn [size pos with_pos]; lia ].
    cbn [pos with_pos length]. rewrite add32_small by lia.
    unfold with_pos. cbn. f_equal. lia.
  - rewrite Z.add_0_r. destruct out; reflexivity.
Qed.

(** X15: an external buffer of capacity zero only counts: as long as the
    cursor does not wrap, a sequence of writes, reserved or public, leaves
    it untouched but for the cursor, which has advanced by the total
    requested length; the storage is never stored to. *)
Theorem zero_capacity_only_counts
  (A : allocator) (fs : list call) (out : printbuf) :
  printbuf_ok out = true -> heap_allocated out = false -> size out = 0 ->
  forallb is_write fs = true -> forallb args_ok fs = true ->
  pos out + requested_len_all fs < 2 ^ 32 ->
  run_all A fs out = Some (with_pos out (pos out + requested_len_all fs)).
Proof.
  revert out. induction fs as [|f fs IH]; intros out H Hh Hz Hw Ha Hfit.
  - cbn. rewrite Z.add_0_r. destruct out; reflexivity.
  - cbn [forallb] in Hw, Ha.
    apply andb_true_iff in Hw as [Hwf Hw].
    apply andb_true_iff in Ha as [Haf Ha].
    destruct (printbuf_ok_elim _ H) as (Hs & Hp & Hl).
    pose proof (requested_len_nonneg f Haf).
    pose proof (requested_len_all_nonneg fs Ha).
    change (requested_len_all (f :: fs))
      with (requested_len f + requested_len_all fs) in *.
    cbn [run_all]. rewrite (run_effect A f out H Haf). cbn [mbind option_bind].
    rewrite effect_zero_capacity by (assumption || lia).
    rewrite IH; try assumption;
      [| apply with_pos_ok; [assumption | lia] | cbn [pos with_pos]; lia ].
    cbn [pos with_pos]. unfold with_pos. cbn. do 2 f_equal. lia.
Qed.

Lemma zero_capacity_only_counts_witness :
  run_all generous
    [Call_prt_str (bytes_of "hello"); Call_prt_hex_byte 171;
     Call__prt_chars_reserved "-" 9]
    (PRINTBUF_EXTERN [] 0)
  = Some (with_pos (PRINTBUF_EXTERN [] 0) 16).
Proof.
  apply (zero_capacity_only_counts generous
           [Call_prt_str (bytes_of "hello"); Call_prt_hex_byte 171;
            Call__prt_chars_reserved "-" 9]
           (PRINTBUF_EXTERN [] 0) eq_refl eq_refl eq_refl eq_refl eq_refl
           eq_refl).
Defined.

(** ** Telling truncation *)

(** X16: [printbuf_overflowed] tells truncation exactly.  On an external
    buffer with [size > 0] and the cursor at 0, after a sequence of public
    writes of total length below [2^32]: if the predicate is false, the text
    is all that was requested; if it is true, the text is the first
    [size - 1] bytes of it and at least one byte is missing. *)
Theorem overflow_tells_truncation
  (A : allocator) (out : printbuf) (fs : list call) :
  printbuf_ok out = true -> heap_allocated out = false ->
  0 < size out -> pos out = 0 ->
  forallb is_public_write fs = true -> forallb args_ok fs = true ->
  requested_len_all fs < 2 ^ 32 ->
  exists out',
    run_all A fs out = Some out'
    /\ (printbuf_overflowed out' = false ->
        printbuf_text out' = requested_all fs)
    /\ (printbuf_overflowed out' = true ->
        printbuf_text out' = take (Z.to_nat (size out - 1)) (requested_all fs)
        /\ (length (printbuf_text out') < length (requested_all fs))%nat).
Proof.
  intros H Hh Hcap Hp0 Hp Ha Hfit.
  destruct (run_all_extern_inv A (size out) fs [] out)
    as (out' & Hrun & Hok & _ & Hsz & Hpos & Htake);
    [lia | now apply extern_inv_start | assumption .. |].
  cbn [app] in *. pose proof (length_requested_all fs Ha) as Hlen.
  pose proof (requested_len_all_nonneg fs Ha) as Hn.
  destruct (printbuf_ok_elim _ Hok) as (_ & _ & Hl).
  rewrite Hlen in *.
  exists out'. split; [exact Hrun|].
  unfold printbuf_text, printbuf_overflowed.
  rewrite (printbuf_written_eq _ (printbuf_ok_fields _ Hok)), Hsz, Hpos.
  destruct (Z.eqb_spec (size out) 0); [lia|]. rewrite Z.geb_leb.
  rewrite Htake. split; intros Hov.
  - apply Z.leb_gt in Hov. apply take_ge. lia.
  - apply Z.leb_le in Hov. rewrite Z.min_r by lia.
    split; [reflexivity|]. rewrite length_take. lia.
Qed.

Lemma overflow_tells_truncation_witness :
  exists out',
    run_all generous [Call_prt_str (bytes_of "hello"); Call_prt_hex_byte 171]
      (PRINTBUF_EXTERN (replicate 8 "x"%char) 8) = Some out'
    /\ (printbuf_overflowed out' = false ->
        printbuf_text out' = bytes_of "helloab").
Proof.
  destruct (overflow_tells_truncation generous
              (PRINTBUF_EXTERN (replicate 8 "x"%char) 8)
              [Call_prt_str (bytes_of "hello"); Call_prt_hex_byte 171]
              eq_refl eq_refl eq_refl eq_refl eq_refl eq_refl eq_refl)
    as (out' & Hrun & Hno & _).
  exists out'. split; [exact Hrun | exact Hno].
Defined.
